(** * Mys_Goods_Tool: the exchange scheduling and dispatch core

    A shallow embedding of [mys_goods_tool/exchange_mode.py] and the
    properties of its outcome classifier, connectivity prober, dispatch
    unit, scheduler builder and mode drivers.

    Conventions of the embedding:
    - The latency window, the random number and the delay slept are
      binary64 floats ([float], with the arithmetic of the machine); ping
      delays are the rationals [Q]; timestamps and instants are [Z]
      (seconds since the epoch).
    - Effects are explicit: a computation returns the trace of what it did
      (log lines, sleeps, callback invocations, ...) together with either
      the exception it raised or its value.
    - What the module imports from elsewhere ([good_exchange], [ping3.ping],
      [random.random], [datetime.fromtimestamp], the scheduler's reading of
      a run date, the class attributes of [Preference], [URL_EXCHANGE]) is
      an input of the definitions; a call that can raise gives either an
      exception or a value. *)

From Stdlib Require Import List String ZArith QArith Qround Qabs Lqa Lia Floats.
Import ListNotations.

Local Open Scope string_scope.
Local Open Scope list_scope.

(** ** Data model (mys_goods_tool.user_data, mys_goods_tool.data_model)

    The classes are declared outside [exchange_mode.py]; each record has
    the fields that [exchange_mode.py] reads. *)

(** Modelled from the spec: the account identity of a plan. *)
Record Account := { bbs_uid : string }.

(** Modelled from the spec: the goods descriptor of a plan.  [time] is the
    release timestamp (seconds since the epoch); a malformed good without
    one carries [None]. *)
Record Good := {
  general_name : string;
  time : option Z;
  time_text : string
}.

(** Modelled from the spec: the pairing of one account and one good. *)
Record ExchangePlan := {
  good : Good;
  account : Account
}.

(** Modelled from the spec: the boolean flags that tell why an attempt did
    not succeed. *)
Record ExchangeStatus := {
  network_error : bool;
  missing_stoken : bool;
  missing_mid : bool;
  missing_address : bool;
  missing_game_uid : bool;
  unsupported_game : bool;
  failed_getting_game_record : bool;
  init_required : bool;
  account_not_found : bool
}.

(** Modelled from the spec: the outcome record of one dispatch, with its
    success flag [result] and the plan it came from. *)
Record ExchangeResult := {
  result : bool;
  plan : ExchangePlan
}.

(** ** Effects *)

Inductive Exn :=
| AttributeError
| TypeError
| OtherError (name : string).

Inductive Level := INFO | ERROR.

(** An f-string is kept as the list of its pieces. *)
Inductive Frag :=
| Text (s : string)
| Num (q : Q).

Record LogLine := { level : Level; message : list Frag }.

(** Trace-and-outcome monad: the events performed, then an exception or a
    value.  Nothing is performed after an exception. *)
Definition M (E A : Type) : Type := (list E * (Exn + A))%type.

Definition ret {E A} (a : A) : M E A := ([], inr a).

Definition bind {E A B} (m : M E A) (k : A -> M E B) : M E B :=
  match m with
  | (t, inl e) => (t, inl e)
  | (t, inr a) => let (t', r) := k a in (t ++ t', r)
  end.

Definition emit {E} (e : E) : M E unit := ([e], inr tt).

Definition raise {E A} (e : Exn) : M E A := ([], inl e).

Definition lift {E F A} (f : E -> F) (m : M E A) : M F A :=
  (map f (fst m), snd m).

Definition trace {E A} (m : M E A) : list E := fst m.
Definition outcome {E A} (m : M E A) : Exn + A := snd m.

Declare Scope monad_scope.
Delimit Scope monad_scope with monad.
Notation "x <- m ;; k" := (bind m (fun x => k))
  (at level 61, m at next level, right associativity) : monad_scope.
Notation "m ;;; k" := (bind m (fun _ => k))
  (at level 61, right associativity) : monad_scope.
Local Open Scope monad_scope.

Definition logger_info (msg : list Frag) : M LogLine unit :=
  emit {| level := INFO; message := msg |}.

Definition logger_error (msg : list Frag) : M LogLine unit :=
  emit {| level := ERROR; message := msg |}.

(** [result.plan] on an [Optional[ExchangeResult]]: attribute access on
    [None] raises. *)
Definition getattr_plan {E} (res : option ExchangeResult) : M E ExchangePlan :=
  match res with
  | Some r => ret (plan r)
  | None => raise AttributeError
  end.

(** ** Outcome classifier: the flag chain of [_on_fail] *)

Definition on_fail_error (status : ExchangeStatus) : string :=
  if network_error status then "网络错误"
  else if missing_stoken status then "商品为游戏内物品，但 Cookies 缺少 stoken"
  else if missing_mid status then
    "商品为游戏内物品，但 stoken 为 'v2' 类型同时 Cookies 缺少 mid"
  else if missing_address status then "商品为实体物品，但未配置收货地址"
  else if missing_game_uid status then
    "商品为游戏内物品，但未配置对应游戏的账号UID"
  else if unsupported_game status then "暂不支持兑换对应分区/游戏的商品"
  else if failed_getting_game_record status then "获取用户 GameRecord 失败"
  else if init_required status then "未进行兑换任务初始化"
  else if account_not_found status then "账号不存在"
  else "未知错误".

Definition _on_fail (status : ExchangeStatus) (res : option ExchangeResult)
  : M LogLine unit :=
  let error := on_fail_error status in
  p <- getattr_plan res ;;
  logger_error [Text "用户 "; Text (bbs_uid (account p)); Text " - ";
                Text (general_name (good p)); Text " 兑换失败，原因：";
                Text error].

(** ** Configuration (the process-wide [conf] object) *)

(** Modelled from the spec: the preferences; an unset timezone or interval
    is [None], the latency window is a pair of floats (seconds). *)
Record Preference := {
  timezone : option string;
  enable_connection_test : bool;
  connection_test_interval : option Q;
  exchange_latency : float * float
}.

(** Modelled from the spec: the configuration object. *)
Record Config := {
  preference : Preference;
  exchange_plans : list ExchangePlan
}.

(** ** Numbers: [random.uniform] and [round] *)

(** [random.uniform(a, b)] is [a + (b - a) * random()] in binary64, where
    [u] stands for the value of [random()], a float of the interval
    [0, 1). *)
Definition random_uniform (a b u : float) : float := (a + (b - a) * u)%float.

Definition unit_interval (u : float) : Prop :=
  (0 <=? u)%float = true /\ (u <? 1)%float = true.

(** Rounding to the nearest integer, ties to even. *)
Definition round_half_even (q : Q) : Z :=
  let f := Qfloor q in
  match ((q - inject_Z f) ?= (1 # 2))%Q with
  | Lt => f
  | Gt => (f + 1)%Z
  | Eq => if Z.even f then f else (f + 1)%Z
  end.

(** [round(x, ndigits)] for a non-negative number of digits. *)
Definition py_round (x : Q) (ndigits : nat) : Q :=
  let scale := (10 ^ Z.of_nat ndigits)%Z in
  (inject_Z (round_half_even (x * inject_Z scale)) / inject_Z scale)%Q.

(** ** Observable events *)

Inductive Slot := on_success_slot | on_fail_slot.

Inductive Event :=
| Logged (l : LogLine)                  (* logger.info / logger.error *)
| LoggerAdded                           (* logger.add(sys.stdout, ...) *)
| Slept (latency : float)               (* await asyncio.sleep(latency) *)
| Requested (p : ExchangePlan)          (* await good_exchange(plan) *)
| Called (slot : Slot) (status : ExchangeStatus)
         (res : option ExchangeResult)  (* on_success(...) / on_fail(...) *)
| JobRaised (e : Exn)                   (* a job ended with an exception *)
| SchedulerCreated                      (* AsyncIOScheduler() *)
| SchedulerStarted                      (* scheduler.start() *)
| SchedulerShutdown.                    (* scheduler.shutdown() *)

Definition ExchangeCallback : Type :=
  ExchangeStatus -> option ExchangeResult -> M LogLine unit.

Definition log_info (msg : list Frag) : M Event unit :=
  lift Logged (logger_info msg).

(** The outcome of [ping3.ping(host, unit="ms")]: [None] on a timeout,
    [False] on an error, else the delay in milliseconds. *)
Inductive PingResult :=
| PingNone
| PingFalse
| PingDelay (ms : Q).

(** What one job run finds around it: the configuration object as it is at
    that moment, the next value of [random()], the reply of the transport
    layer to [good_exchange], and the outcome of the call of [ping3.ping];
    each of the two calls returns or raises. *)
Record World := {
  conf : Config;
  random : float;
  good_exchange : ExchangePlan -> Exn + (ExchangeStatus * option ExchangeResult);
  ping : Exn + PingResult
}.

(** ** Dispatch unit

    [if exchange_result:] tests an [Optional[ExchangeResult]]: [None] is
    false and a result object is true. *)

Definition call (slot : Slot) (callback : ExchangeCallback)
  (status : ExchangeStatus) (res : option ExchangeResult) : M Event unit :=
  emit (Called slot status res) ;;;
  lift Logged (callback status res).

Definition await_good_exchange (w : World) (p : ExchangePlan)
  : M Event (ExchangeStatus * option ExchangeResult) :=
  emit (Requested p) ;;;
  match good_exchange w p with
  | inl e => raise e
  | inr reply => ret reply
  end.

Definition exchange_begin (w : World) (p : ExchangePlan)
  (on_success on_fail : ExchangeCallback) : M Event unit :=
  log_info [Text (general_name (good p)); Text " - ";
            Text (time_text (good p)); Text " 定时器触发，开始兑换"] ;;;
  let (random_x, random_y) := exchange_latency (preference (conf w)) in
  let latency := random_uniform random_x random_y (random w) in
  emit (Slept latency) ;;;
  reply <- await_good_exchange w p ;;
  let (exchange_status, exchange_result) := reply in
  log_info [Text (general_name (good p)); Text " - ";
            Text (time_text (good p)); Text " 兑换请求已发送"] ;;;
  match exchange_result with
  | Some r =>
      if result r
      then call on_success_slot on_success exchange_status exchange_result
      else call on_fail_slot on_fail exchange_status exchange_result
  | None => call on_fail_slot on_fail exchange_status exchange_result
  end.

(** The callbacks that [exchange_mode_simple] defines. *)
Module Simple.

Definition on_success : ExchangeCallback := fun _ res =>
  p <- getattr_plan res ;;
  logger_info [Text "用户 "; Text (bbs_uid (account p)); Text " - ";
               Text (general_name (good p)); Text " 兑换成功"].

Definition on_fail : ExchangeCallback := fun _ res =>
  p <- getattr_plan res ;;
  logger_error [Text "用户 "; Text (bbs_uid (account p)); Text " - ";
                Text (general_name (good p)); Text " 兑换失败"].

End Simple.

(** ** Prober, scheduler and headless driver *)

Section Scheduling.

(** [datetime] values and [datetime.fromtimestamp]: the naive date and time
    of a timestamp in the local zone of the process, or the exception that
    an out-of-range timestamp raises. *)
Variable datetime : Type.
Variable fromtimestamp : Z -> Exn + datetime.

(** How a scheduler configured with a timezone reads the naive run date of
    a date job: the instant at which the job fires. *)
Variable localize : string -> datetime -> Z.

(** The class attributes [Preference.timezone] and
    [Preference.connection_test_interval], as reading them off the class
    turns out: an exception or a value. *)
Variable Preference_timezone : Exn + string.
Variable Preference_connection_test_interval : Exn + Q.

(** [str(urlparse(URL_EXCHANGE).hostname)]. *)
Variable hostname : string.

(** Python's [x or default]: a truthy [x] is the result and the default is
    not evaluated; for a falsy [x], which for an optional string is [None]
    or the empty string and for an optional number is [None] or zero, the
    default is evaluated. *)
Definition or_str {E} (x : option string) (default : Exn + string) : M E string :=
  match x with
  | Some s => if (s =? "")%string then ([], default) else ret s
  | None => ([], default)
  end.

Definition or_num {E} (x : option Q) (default : Exn + Q) : M E Q :=
  match x with
  | Some q => if Qeq_bool q 0 then ([], default) else ret q
  | None => ([], default)
  end.

Definition _connection_test (w : World) : M LogLine unit :=
  result <- ([], ping w) ;;
  match result with
  | PingNone =>
      logger_info [Text "Ping 商品兑换API服务器 "; Text hostname; Text " 超时"]
  | PingFalse =>
      logger_info [Text "Ping 商品兑换API服务器 "; Text hostname; Text " 失败"]
  | PingDelay ms =>
      logger_info [Text "Ping 商品兑换API服务器 "; Text hostname;
                   Text " 延迟 "; Num (py_round ms 2); Text " ms"]
  end.

(** A job of the scheduler's table, as [add_job] was given it:
    [add_job(_connection_test, "interval", seconds=...)] or
    [add_job(exchange_begin, "date", args=..., run_date=...)]. *)
Inductive Job :=
| IntervalJob (seconds : Q)
| DateJob (run_date : datetime)
          (args : ExchangePlan * ExchangeCallback * ExchangeCallback).

Record AsyncIOScheduler := {
  scheduler_timezone : option string;
  jobs : list Job
}.

Definition new_scheduler : AsyncIOScheduler :=
  {| scheduler_timezone := None; jobs := [] |}.

Definition configure (s : AsyncIOScheduler) (tz : string) : AsyncIOScheduler :=
  {| scheduler_timezone := Some tz; jobs := jobs s |}.

Definition add_job (s : AsyncIOScheduler) (j : Job) : AsyncIOScheduler :=
  {| scheduler_timezone := scheduler_timezone s; jobs := jobs s ++ [j] |}.

(** The instant at which a date job of a configured scheduler fires. *)
Definition trigger_time (s : AsyncIOScheduler) (j : Job) : option Z :=
  match j, scheduler_timezone s with
  | DateJob run_date _, Some tz => Some (localize tz run_date)
  | _, _ => None
  end.

(** [datetime.fromtimestamp(plan.good.time)]: a missing timestamp is a type
    error, and the conversion of a present one may raise. *)
Definition datetime_fromtimestamp (t : option Z) : M Event datetime :=
  match t with
  | Some ts => ([], fromtimestamp ts)
  | None => raise TypeError
  end.

(** The loop [for plan in conf.exchange_plans: scheduler.add_job(...)]. *)
Fixpoint add_plan_jobs (plans : list ExchangePlan)
  (on_success on_fail : ExchangeCallback) (s : AsyncIOScheduler)
  : M Event AsyncIOScheduler :=
  match plans with
  | [] => ret s
  | p :: rest =>
      run_date <- datetime_fromtimestamp (time (good p)) ;;
      add_plan_jobs rest on_success on_fail
        (add_job s (DateJob run_date (p, on_success, on_fail)))
  end.

Definition get_scheduler (c : Config)
  (on_success on_fail : ExchangeCallback) : M Event AsyncIOScheduler :=
  emit SchedulerCreated ;;;
  let scheduler := new_scheduler in
  tz <- or_str (timezone (preference c)) Preference_timezone ;;
  let scheduler := configure scheduler tz in
  scheduler <-
    (if enable_connection_test (preference c) then
       interval <- or_num (connection_test_interval (preference c))
                          Preference_connection_test_interval ;;
       ret (add_job scheduler (IntervalJob interval))
     else ret scheduler) ;;
  add_plan_jobs (exchange_plans c) on_success on_fail scheduler.

(** *** The running scheduler

    The event loop decides which job of the table runs next; a [Firing]
    names the job by its position in the table and gives the world that the
    job run finds.  A date job leaves the table when it has run, the
    interval job stays.  A job that ends with an exception is reported and
    the table goes on. *)

Record Firing := { fired : nat; world : World }.

Definition run_job (m : M Event unit) : list Event :=
  match m with
  | (t, inl e) => t ++ [JobRaised e]
  | (t, inr _) => t
  end.

Fixpoint remove_nth {A} (n : nat) (l : list A) : list A :=
  match n, l with
  | _, [] => []
  | O, _ :: l' => l'
  | S n', x :: l' => x :: remove_nth n' l'
  end.

Fixpoint run_forever (table : list Job) (firings : list Firing) : list Event :=
  match firings with
  | [] => []
  | f :: rest =>
      match nth_error table (fired f) with
      | None => run_forever table rest
      | Some (IntervalJob _) =>
          run_job (lift Logged (_connection_test (world f)))
            ++ run_forever table rest
      | Some (DateJob _ (p, on_success, on_fail)) =>
          run_job (exchange_begin (world f) p on_success on_fail)
            ++ run_forever (remove_nth (fired f) table) rest
      end
  end.

(** How a call of the headless driver ends: it returns, or it is still
    inside [run_forever]. *)
Inductive Completion := Returned | Blocked.

(** [c] is the configuration object when the driver is called; [firings]
    are the job runs of the event loop, and [interrupt] tells whether a
    KeyboardInterrupt follows them. *)
Definition exchange_mode_simple (c : Config) (firings : list Firing)
  (interrupt : bool) : M Event Completion :=
  emit LoggerAdded ;;;
  match exchange_plans c with
  | [] =>
      log_info [Text "无兑换计划需要执行"] ;;;
      ret Returned
  | _ :: _ =>
      scheduler <- get_scheduler c Simple.on_success Simple.on_fail ;;
      emit SchedulerStarted ;;;
      log_info [Text "兑换计划定时器已启动"] ;;;
      (run_forever (jobs scheduler) firings, inr tt) ;;;
      if interrupt then
        emit SchedulerShutdown ;;;
        log_info [Text "兑换计划定时器已停止"] ;;;
        ret Returned
      else ret Blocked
  end.

End Scheduling.

Arguments IntervalJob {datetime} seconds.
Arguments DateJob {datetime} run_date args.
Arguments scheduler_timezone {datetime} _.
Arguments jobs {datetime} _.
Arguments Build_AsyncIOScheduler {datetime} _ _.
Arguments run_forever {datetime} hostname table firings.
Arguments new_scheduler {datetime}.
Arguments configure {datetime} s tz.
Arguments add_job {datetime} s j.
Arguments datetime_fromtimestamp {datetime} fromtimestamp t.
Arguments add_plan_jobs {datetime} fromtimestamp plans on_success on_fail s.
Arguments get_scheduler {datetime} fromtimestamp Preference_timezone
  Preference_connection_test_interval c on_success on_fail.
Arguments exchange_mode_simple {datetime} fromtimestamp Preference_timezone
  Preference_connection_test_interval hostname c firings interrupt.
Arguments trigger_time {datetime} localize s j.

(** ** Interactive view *)

(** Modelled from the spec: whether a control is on the screen. *)
Inductive Display := BLOCK | NONE.

(** Modelled from the spec: [ControllableButton]
    (mys_goods_tool.custom_widget), a button that can be shown and hidden. *)
Record ControllableButton := {
  label : string;
  variant : string;
  id : string;
  display : Display
}.

(** Modelled from the spec: the constructor of [ControllableButton]; a new
    button is displayed. *)
Definition new_button (label variant id : string) : ControllableButton :=
  {| label := label; variant := variant; id := id; display := BLOCK |}.

(** Modelled from the spec: [ControllableButton.show] puts the button on
    the screen. *)
Definition show (b : ControllableButton) : ControllableButton :=
  {| label := label b; variant := variant b; id := id b; display := BLOCK |}.

(** Modelled from the spec: [ControllableButton.hide] takes the button off
    the screen. *)
Definition hide (b : ControllableButton) : ControllableButton :=
  {| label := label b; variant := variant b; id := id b; display := NONE |}.

Definition ENTER_TEXT : string :=
  "确定要[bold]进入[/]兑换模式？进入兑换模式后[bold]无法使用其他功能[/]，定时兑换任务将会启动。你随时都可以退出，但定时任务将会停止。".

Definition EXIT_TEXT : string :=
  "已进入兑换模式，你可以随时[bold]退出[/]。退出后[bold]定时兑换任务将会停止[/]。".

Record ExchangeModeWarning := { display_text : string }.

Definition render (self : ExchangeModeWarning) : string := display_text self.

Record ExchangeModeView := {
  button_enter : ControllableButton;
  button_exit : ControllableButton;
  warning_text : ExchangeModeWarning
}.

(** The class body of [ExchangeModeView]. *)
Definition initial_view : ExchangeModeView :=
  {| button_enter := new_button "确定" "warning" "button-exchange_mode-enter";
     button_exit := hide (new_button "退出" "error" "button-exchange_mode-exit");
     warning_text := {| display_text := ENTER_TEXT |} |}.

Inductive Message := EnterExchangeMode | ExitExchangeMode.

(** [ControllableButton.Pressed]: the event carries the pressed button. *)
Record Pressed := { button : ControllableButton }.

(** The view after the handler, and the messages it posted. *)
Definition _on_button_pressed (self : ExchangeModeView) (event : Pressed)
  : ExchangeModeView * list Message :=
  if (id (button event) =? "button-exchange_mode-enter")%string then
    let self := {| button_enter := hide (button_enter self);
                   button_exit := button_exit self;
                   warning_text := warning_text self |} in
    let self := {| button_enter := button_enter self;
                   button_exit := show (button_exit self);
                   warning_text := warning_text self |} in
    let self := {| button_enter := button_enter self;
                   button_exit := button_exit self;
                   warning_text := {| display_text := EXIT_TEXT |} |} in
    (self, [EnterExchangeMode])
  else if (id (button event) =? "button-exchange_mode-exit")%string then
    let self := {| button_enter := button_enter self;
                   button_exit := hide (button_exit self);
                   warning_text := warning_text self |} in
    let self := {| button_enter := show (button_enter self);
                   button_exit := button_exit self;
                   warning_text := warning_text self |} in
    let self := {| button_enter := button_enter self;
                   button_exit := button_exit self;
                   warning_text := {| display_text := ENTER_TEXT |} |} in
    (self, [ExitExchangeMode])
  else (self, []).

(** Pressing a button of the view: the event is about that button as the
    view holds it. *)
Definition press_enter (v : ExchangeModeView) : ExchangeModeView * list Message :=
  _on_button_pressed v {| button := button_enter v |}.

Definition press_exit (v : ExchangeModeView) : ExchangeModeView * list Message :=
  _on_button_pressed v {| button := button_exit v |}.

(** Two presses in a row: the second handler runs on the view the first
    one left, and the posted messages queue up in order. *)
Definition press_enter_then_exit (v : ExchangeModeView)
  : ExchangeModeView * list Message :=
  let (v1, posted1) := press_enter v in
  let (v2, posted2) := press_exit v1 in
  (v2, posted1 ++ posted2).

(** ** Specification-side definitions *)

(** The categories of the classifier, in the words of the specification. *)
Inductive Category :=
| category_network_error
| category_missing_stoken
| category_missing_mid
| category_missing_address
| category_missing_game_uid
| category_unsupported_game
| category_failed_getting_game_record
| category_init_required
| category_account_not_found
| category_unknown.

(** The flag a category stands for; [unknown] stands for none. *)
Definition flag_of (c : Category) (s : ExchangeStatus) : bool :=
  match c with
  | category_network_error => network_error s
  | category_missing_stoken => missing_stoken s
  | category_missing_mid => missing_mid s
  | category_missing_address => missing_address s
  | category_missing_game_uid => missing_game_uid s
  | category_unsupported_game => unsupported_game s
  | category_failed_getting_game_record => failed_getting_game_record s
  | category_init_required => init_required s
  | category_account_not_found => account_not_found s
  | category_unknown => false
  end.

(** The fixed priority order. *)
Definition priority_order : list Category :=
  [category_network_error; category_missing_stoken; category_missing_mid;
   category_missing_address; category_missing_game_uid;
   category_unsupported_game; category_failed_getting_game_record;
   category_init_required; category_account_not_found].

(** First match against the flags in priority order, [unknown] when no flag
    is set. *)
Definition classify (s : ExchangeStatus) : Category :=
  match find (fun c => flag_of c s) priority_order with
  | Some c => c
  | None => category_unknown
  end.

(** The reason [_on_fail] reports for a category. *)
Definition reason_text (c : Category) : string :=
  match c with
  | category_network_error => "网络错误"
  | category_missing_stoken => "商品为游戏内物品，但 Cookies 缺少 stoken"
  | category_missing_mid =>
      "商品为游戏内物品，但 stoken 为 'v2' 类型同时 Cookies 缺少 mid"
  | category_missing_address => "商品为实体物品，但未配置收货地址"
  | category_missing_game_uid => "商品为游戏内物品，但未配置对应游戏的账号UID"
  | category_unsupported_game => "暂不支持兑换对应分区/游戏的商品"
  | category_failed_getting_game_record => "获取用户 GameRecord 失败"
  | category_init_required => "未进行兑换任务初始化"
  | category_account_not_found => "账号不存在"
  | category_unknown => "未知错误"
  end.

(** The callback invocations of a trace, in order. *)
Definition invocation_of (e : Event)
  : option (Slot * ExchangeStatus * option ExchangeResult) :=
  match e with
  | Called slot status res => Some (slot, status, res)
  | _ => None
  end.

Fixpoint invocations (t : list Event)
  : list (Slot * ExchangeStatus * option ExchangeResult) :=
  match t with
  | [] => []
  | e :: t' =>
      match invocation_of e with
      | Some i => i :: invocations t'
      | None => invocations t'
      end
  end.

(** The durations slept in a trace, in order. *)
Fixpoint sleeps (t : list Event) : list float :=
  match t with
  | [] => []
  | Slept d :: t' => d :: sleeps t'
  | _ :: t' => sleeps t'
  end.

(** The routing rule: the success slot for a present result whose flag is
    true, the failure slot otherwise. *)
Definition routed_slot (res : option ExchangeResult) : Slot :=
  match res with
  | Some r => if result r then on_success_slot else on_fail_slot
  | None => on_fail_slot
  end.


(** The callback the routing rule selects. *)
Definition routed_callback (res : option ExchangeResult)
  (on_success on_fail : ExchangeCallback) : ExchangeCallback :=
  match routed_slot res with
  | on_success_slot => on_success
  | on_fail_slot => on_fail
  end.

(** The two log lines of a dispatch. *)
Definition trigger_line (p : ExchangePlan) : LogLine :=
  {| level := INFO;
     message := [Text (general_name (good p)); Text " - ";
                 Text (time_text (good p)); Text " 定时器触发，开始兑换"] |}.

Definition sent_line (p : ExchangePlan) : LogLine :=
  {| level := INFO;
     message := [Text (general_name (good p)); Text " - ";
                 Text (time_text (good p)); Text " 兑换请求已发送"] |}.

(** The delay a dispatch samples in the world [w]. *)
Definition jitter (w : World) : float :=
  random_uniform (fst (exchange_latency (preference (conf w))))
                 (snd (exchange_latency (preference (conf w)))) (random w).


(** What a reader of the log learns from a line of the prober. *)
Inductive Observation :=
| timed_out
| failed
| succeeded (latency_ms : Q).

Definition observed (l : LogLine) : option Observation :=
  match message l with
  | [Text _; Text _; Text verdict] =>
      if (verdict =? " 超时")%string then Some timed_out
      else if (verdict =? " 失败")%string then Some failed
      else None
  | [Text _; Text _; Text verdict; Num q; Text _] =>
      if (verdict =? " 延迟 ")%string then Some (succeeded q) else None
  | _ => None
  end.

Definition observation (r : PingResult) : Observation :=
  match r with
  | PingNone => timed_out
  | PingFalse => failed
  | PingDelay ms => succeeded (py_round ms 2)
  end.

(** The one-shot jobs of a job table. *)
Definition is_date_job {datetime} (j : Job datetime) : bool :=
  match j with
  | DateJob _ _ => true
  | IntervalJob _ => false
  end.

Definition date_jobs {datetime} (table : list (Job datetime)) : list (Job datetime) :=
  filter is_date_job table.

(** The probe jobs of a job table. *)
Definition interval_jobs {datetime} (table : list (Job datetime))
  : list (Job datetime) :=
  filter (fun j => negb (is_date_job j)) table.

(** The settings with which [get_scheduler] evaluates no class attribute:
    a timezone that is set and not empty, and the connection test either
    disabled or with an interval that is set and not zero. *)
Definition timezone_set (c : Config) (tz : string) : Prop :=
  timezone (preference c) = Some tz /\ tz <> "".

Definition probe_set (c : Config) : Prop :=
  enable_connection_test (preference c) = false
  \/ exists q, connection_test_interval (preference c) = Some q
               /\ ~ (q == 0)%Q.

(** The probe job that [get_scheduler] registers from the configuration
    alone. *)
Definition configured_probe {datetime} (c : Config) : list (Job datetime) :=
  if enable_connection_test (preference c) then
    match connection_test_interval (preference c) with
    | Some q => [IntervalJob q]
    | None => []
    end
  else [].

(** The plans whose release timestamp is present and converts to a date. *)
Definition convertible {datetime} (fromtimestamp : Z -> Exn + datetime)
  (p : ExchangePlan) : Prop :=
  exists ts d, time (good p) = Some ts /\ fromtimestamp ts = inr d.

(** A run of the scheduler: it is built from the configuration [c] and the
    callbacks, started, and the event loop performs [firings]. *)
Definition scheduler_run {datetime} (fromtimestamp : Z -> Exn + datetime)
  (Preference_timezone : Exn + string)
  (Preference_connection_test_interval : Exn + Q)
  (hostname : string) (c : Config) (on_success on_fail : ExchangeCallback)
  (firings : list Firing) : M Event unit :=
  scheduler <- get_scheduler fromtimestamp Preference_timezone
                 Preference_connection_test_interval c on_success on_fail ;;
  emit SchedulerStarted ;;;
  (run_forever hostname (jobs scheduler) firings, inr tt).

(** Two firings that agree on everything but the configuration they see. *)
Definition same_but_conf (f1 f2 : Firing) : Prop :=
  fired f1 = fired f2
  /\ random (world f1) = random (world f2)
  /\ good_exchange (world f1) = good_exchange (world f2)
  /\ ping (world f1) = ping (world f2).

(** Two firings that see the same latency window. *)
Definition same_latency (f1 f2 : Firing) : Prop :=
  exchange_latency (preference (conf (world f1)))
  = exchange_latency (preference (conf (world f2))).

(** A world that differs from [w] in the reply of the transport layer. *)
Definition replying (w : World)
  (reply : Exn + (ExchangeStatus * option ExchangeResult)) : World :=
  {| conf := conf w; random := random w;
     good_exchange := fun _ => reply; ping := ping w |}.

(** ** Sample data *)

Definition sample_account : Account := {| bbs_uid := "10001" |}.

Definition sample_good : Good :=
  {| general_name := "sample good";
     time := Some 4102444800%Z;
     time_text := "2100-01-01 08:00:00" |}.

Definition sample_plan : ExchangePlan :=
  {| good := sample_good; account := sample_account |}.

Definition no_flags : ExchangeStatus :=
  {| network_error := false; missing_stoken := false; missing_mid := false;
     missing_address := false; missing_game_uid := false;
     unsupported_game := false; failed_getting_game_record := false;
     init_required := false; account_not_found := false |}.

(** Two flags at once: a missing mid and a missing initialisation. *)
Definition two_flags : ExchangeStatus :=
  {| network_error := false; missing_stoken := false; missing_mid := true;
     missing_address := false; missing_game_uid := false;
     unsupported_game := false; failed_getting_game_record := false;
     init_required := true; account_not_found := false |}.

Definition sample_success : ExchangeResult :=
  {| result := true; plan := sample_plan |}.

Definition sample_preference : Preference :=
  {| timezone := Some "Asia/Shanghai"; enable_connection_test := true;
     connection_test_interval := Some 30%Q;
     exchange_latency := (0, 0.5)%float |}.

Definition sample_conf : Config :=
  {| preference := sample_preference; exchange_plans := [sample_plan] |}.

Definition sample_world : World :=
  {| conf := sample_conf; random := 0.25%float;
     good_exchange := fun _ => inr (no_flags, Some sample_success);
     ping := inr (PingDelay (123456 # 10000)) |}.

(** Sample values for what the module imports.  A naive date is the
    number of seconds that its wall clock shows since 1970-01-01 00:00:00;
    the process runs eight hours ahead of UTC; a scheduler reads a naive
    date in the zone "Asia/Shanghai" as eight hours ahead of UTC and in any
    other zone as UTC; reading a class attribute of [Preference] raises;
    and the host name. *)
Definition sample_fromtimestamp (ts : Z) : Exn + Z := inr (ts + 28800)%Z.

Definition sample_localize (tz : string) (naive : Z) : Z :=
  if (tz =? "Asia/Shanghai")%string then (naive - 28800)%Z else naive.

Definition sample_timezone : Exn + string := inl AttributeError.
Definition sample_interval : Exn + Q := inl AttributeError.
Definition sample_hostname : string := "api.example.com".

(** The same for a process that runs in UTC. *)
Definition utc_fromtimestamp (ts : Z) : Exn + Z := inr ts.

(** The sample configuration after a later change of the latency window,
    and after a later change of everything but the latency window. *)
Definition later_latency_conf : Config :=
  {| preference :=
       {| timezone := Some "Asia/Shanghai"; enable_connection_test := true;
          connection_test_interval := Some 30%Q;
          exchange_latency := (1, 1)%float |};
     exchange_plans := [sample_plan] |}.

Definition later_other_conf : Config :=
  {| preference :=
       {| timezone := Some "UTC"; enable_connection_test := false;
          connection_test_interval := Some 5%Q;
          exchange_latency := (0, 0.5)%float |};
     exchange_plans := [] |}.

Definition with_conf (w : World) (c : Config) : World :=
  {| conf := c; random := random w;
     good_exchange := good_exchange w; ping := ping w |}.

(** The event loop fires the job at position 1 of the table, which for the
    sample configuration is the date job of the sample plan. *)
Definition sample_firings : list Firing :=
  [{| fired := 1; world := sample_world |}].

Definition later_latency_firings : list Firing :=
  [{| fired := 1; world := with_conf sample_world later_latency_conf |}].

Definition later_other_firings : list Firing :=
  [{| fired := 1; world := with_conf sample_world later_other_conf |}].

Definition empty_conf : Config :=
  {| preference := sample_preference; exchange_plans := [] |}.

(** ** The view as a whole *)

(** What [compose] yields, in order. *)
Inductive Widget :=
| StaticWidget (w : ExchangeModeWarning)
| ButtonWidget (b : ControllableButton).

Definition compose (self : ExchangeModeView) : list Widget :=
  [StaticWidget (warning_text self);
   ButtonWidget (button_enter self);
   ButtonWidget (button_exit self)].

(** The handler run on a queue of button events, one after the other. *)
Fixpoint handle_events (v : ExchangeModeView) (events : list Pressed)
  : ExchangeModeView * list Message :=
  match events with
  | [] => (v, [])
  | e :: rest =>
      let (v1, posted1) := _on_button_pressed v e in
      let (v2, posted2) := handle_events v1 rest in
      (v2, posted1 ++ posted2)
  end.

(** The two looks of the view. *)
Definition disarmed_look (v : ExchangeModeView) : Prop :=
  display (button_enter v) = BLOCK
  /\ display (button_exit v) = NONE
  /\ render (warning_text v) = ENTER_TEXT.

Definition armed_look (v : ExchangeModeView) : Prop :=
  display (button_enter v) = NONE
  /\ display (button_exit v) = BLOCK
  /\ render (warning_text v) = EXIT_TEXT.

(** The ids of the buttons that are on the screen, in the order of
    [compose]. *)
Fixpoint displayed_buttons (ws : list Widget) : list string :=
  match ws with
  | [] => []
  | ButtonWidget b :: rest =>
      match display b with
      | BLOCK => id b :: displayed_buttons rest
      | NONE => displayed_buttons rest
      end
  | StaticWidget _ :: rest => displayed_buttons rest
  end.

(** ** More readings of a trace *)


(** The log lines of a trace, in order. *)
Fixpoint logs (t : list Event) : list LogLine :=
  match t with
  | [] => []
  | Logged l :: t' => l :: logs t'
  | _ :: t' => logs t'
  end.


(** A plan whose good has no release timestamp, and configurations with a
    reversed latency window, an empty timezone and a zero interval. *)
Definition untimed_plan : ExchangePlan :=
  {| good := {| general_name := "untimed"; time := None; time_text := "" |};
     account := sample_account |}.

Definition untimed_conf : Config :=
  {| preference := sample_preference;
     exchange_plans := [sample_plan; untimed_plan] |}.

Definition reversed_conf : Config :=
  {| preference :=
       {| timezone := Some "Asia/Shanghai"; enable_connection_test := true;
          connection_test_interval := Some 30%Q;
          exchange_latency := (2, 1)%float |};
     exchange_plans := [sample_plan] |}.

Definition empty_timezone_conf : Config :=
  {| preference :=
       {| timezone := Some ""; enable_connection_test := true;
          connection_test_interval := Some 30%Q;
          exchange_latency := (0, 0.5)%float |};
     exchange_plans := [sample_plan] |}.

Definition zero_interval_conf : Config :=
  {| preference :=
       {| timezone := Some "Asia/Shanghai"; enable_connection_test := true;
          connection_test_interval := Some 0%Q;
          exchange_latency := (0, 0.5)%float |};
     exchange_plans := [sample_plan] |}.



Definition other_button : ControllableButton :=
  new_button "other" "default" "button-other".

(** The scheduler that [get_scheduler] builds for [sample_conf] with the
    sample imports and the callbacks of the headless driver. *)
Definition sample_scheduler : AsyncIOScheduler Z :=
  {| scheduler_timezone := Some "Asia/Shanghai";
     jobs := [IntervalJob 30;
              DateJob (4102444800 + 28800)%Z
                      (sample_plan, Simple.on_success, Simple.on_fail)] |}.

(** A world whose ping raises. *)
Definition unpingable_world : World :=
  {| conf := sample_conf; random := 0.25%float;
     good_exchange := good_exchange sample_world;
     ping := inl (OtherError "PermissionError") |}.




(** A conversion that refuses the timestamps after the year 9999, as
    [datetime.fromtimestamp] does, for a process that runs in UTC; and a
    plan with such a timestamp. *)
Definition bounded_fromtimestamp (ts : Z) : Exn + Z :=
  if (ts <=? 253402300799)%Z then inr ts else inl (OtherError "ValueError").

Definition far_plan : ExchangePlan :=
  {| good := {| general_name := "far"; time := Some 1000000000000%Z;
                time_text := "" |};
     account := sample_account |}.

Definition far_conf : Config :=
  {| preference := sample_preference;
     exchange_plans := [sample_plan; far_plan] |}.

Definition reversed_world : World := with_conf sample_world reversed_conf.


(** ** Values of binary64 numbers

    A finite binary64 number is [m * 2 ^ e] with [-1074 <= e]; the sum, the
    difference and the product of two of them are integer multiples of
    [2 ^ -2148].  [SFval] is the value of a float counted in that unit, an
    integer, so that the rounded operations can be compared exactly. *)

Definition grid : Z := 2148.

Definition grid_val (m e : Z) : Z := (m * 2 ^ (e + grid))%Z.

Definition SFval (f : spec_float) : Z :=
  match f with
  | S754_finite s m e => cond_Zopp s (grid_val (Zpos m) e)
  | _ => 0%Z
  end.

Definition SFfinite (f : spec_float) : bool :=
  match f with
  | S754_finite _ _ _ | S754_zero _ => true
  | _ => false
  end.

Definition with_sign (s : bool) (f : spec_float) : spec_float :=
  match f with
  | S754_zero _ => S754_zero s
  | S754_infinity _ => S754_infinity s
  | S754_finite _ m e => S754_finite s m e
  | S754_nan => S754_nan
  end.

(** [x] is a rounding of the exact value [v]: it jumps over no valid float,
    on either side, unless it overflows; and when it lies above a
    non-negative [v], or below a non-positive [v], it is a normal float
    above the least exponent. *)
Definition is_rounding (v : Z) (x : spec_float) : Prop :=
  (forall g, valid_binary g = true -> SFfinite g = true ->
     (v <= SFval g)%Z ->
     x = S754_infinity true \/ (SFfinite x = true /\ (SFval x <= SFval g)%Z))
  /\ (forall g, valid_binary g = true -> SFfinite g = true ->
     (SFval g <= v)%Z ->
     x = S754_infinity false \/ (SFfinite x = true /\ (SFval g <= SFval x)%Z))
  /\ ((0 <= v)%Z -> SFfinite x = true -> (v < SFval x)%Z ->
     exists m e, x = S754_finite false m e
                 /\ (-1074 < e)%Z /\ (2 ^ 52 <= Zpos m)%Z)
  /\ ((v <= 0)%Z -> SFfinite x = true -> (SFval x < v)%Z ->
     exists m e, x = S754_finite true m e
                 /\ (-1074 < e)%Z /\ (2 ^ 52 <= Zpos m)%Z).

(** The binary64 number [1.0]. *)
Definition SFone : spec_float := S754_finite false 4503599627370496 (-52).
(** * Binary64 arithmetic of the jitter

    [random.uniform(a, b)] is [a + (b - a) * random()] on binary64 numbers.
    The lemmas below follow the three rounded operations through the
    specification of the primitive floats ([SpecFloat]), with every finite
    float read as an integer number of units of [2 ^ - grid]. *)

Section Binary64.

Local Open Scope Z_scope.

Lemma fexp_eq (e : Z) : fexp prec emax e = Z.max (e - 53) (-1074).
Proof. reflexivity. Qed.

Lemma pow2_pos (n : Z) : 0 <= n -> 0 < 2 ^ n.
Proof. intros. apply Z.pow_pos_nonneg; lia. Qed.

Lemma pow2_le (a b : Z) : 0 <= a <= b -> 2 ^ a <= 2 ^ b.
Proof. intros. apply Z.pow_le_mono_r; lia. Qed.

(** If [x < 2 ^ b] and [2 ^ a <= x] then [a < b]. *)
Lemma pow2_lt_inv (a b x : Z) : 0 <= a -> 0 <= b -> 2 ^ a <= x -> x < 2 ^ b -> a < b.
Proof.
  intros Ha Hb H1 H2. destruct (Z.lt_ge_cases a b) as [| Hge]; [assumption |].
  pose proof (pow2_le b a ltac:(lia)). lia.
Qed.

Lemma digits2_size (p : positive) : digits2_pos p = Pos.size p.
Proof. induction p; simpl; congruence. Qed.

Lemma digits2_bounds (p : positive) :
  2 ^ (Zpos (digits2_pos p) - 1) <= Zpos p < 2 ^ Zpos (digits2_pos p).
Proof.
  rewrite digits2_size.
  pose proof (Pos.size_gt p) as Hgt. pose proof (Pos.size_le p) as Hle.
  apply Pos2Z.pos_lt_pos in Hgt. apply Pos2Z.pos_le_pos in Hle.
  rewrite Pos2Z.inj_pow in Hgt, Hle.
  rewrite (Pos2Z.inj_xO p) in Hle.
  replace (Zpos (Pos.size p)) with (Zpos (Pos.size p) - 1 + 1) in Hle at 1 by lia.
  rewrite Z.pow_add_r in Hle by lia. change (2 ^ 1) with 2 in Hle.
  split; lia.
Qed.

Lemma iter_pos_nat {A : Type} (f : A -> A) (p : positive) :
  forall x, iter_pos f p x = Nat.iter (Pos.to_nat p) f x.
Proof.
  induction p as [p IH | p IH |]; intros x; cbn [iter_pos].
  - rewrite !IH. rewrite Pos2Nat.inj_xI.
    replace (S (2 * Pos.to_nat p)) with (Pos.to_nat p + S (Pos.to_nat p))%nat by lia.
    rewrite Nat.iter_add. now rewrite Nat.iter_succ_r.
  - rewrite !IH. rewrite Pos2Nat.inj_xO.
    replace (2 * Pos.to_nat p)%nat with (Pos.to_nat p + Pos.to_nat p)%nat by lia.
    now rewrite Nat.iter_add.
  - reflexivity.
Qed.

(** [k] right shifts of a mantissa: the quotient, and two flags that tell
    how the remainder compares with the half. *)
Lemma shr_1_iter (M : Z) (k : nat) :
  0 <= M ->
  exists q r rb sb,
    Nat.iter k shr_1 (Build_shr_record M false false) = Build_shr_record q rb sb
    /\ M = q * 2 ^ Z.of_nat k + r
    /\ 0 <= r < 2 ^ Z.of_nat k
    /\ 0 <= q
    /\ (rb = true <-> 2 ^ Z.of_nat k <= 2 * r)
    /\ (sb = true <-> r <> 0 /\ 2 * r <> 2 ^ Z.of_nat k).
Proof.
  intros HM. induction k as [| k IH].
  - exists M, 0, false, false. simpl. repeat split; try lia; try discriminate.
  - destruct IH as [q [r [rb [sb [Hit [HMq [Hr [Hq [Hrb Hsb]]]]]]]]].
    rewrite Nat2Z.inj_succ, Z.pow_succ_r by lia.
    pose proof (pow2_pos (Z.of_nat k) ltac:(lia)) as HP.
    set (P := 2 ^ Z.of_nat k) in *.
    simpl Nat.iter. rewrite Hit. unfold shr_1.
    assert (Hs : (rb || sb = true) <-> r <> 0).
    { rewrite orb_true_iff, Hrb, Hsb. lia. }
    assert (Hs1 : rb || sb = true -> r <> 0) by apply Hs.
    assert (Hs2 : r <> 0 -> rb || sb = true) by apply Hs.
    destruct q as [| [p | p |] |]; try lia;
      [ exists 0, r, false, (rb || sb)
      | exists (Zpos p), (P + r), true, (rb || sb)
      | exists (Zpos p), r, false, (rb || sb)
      | exists 0, (P + r), true, (rb || sb) ];
      (split; [reflexivity |]);
      repeat split; try lia; try discriminate;
      try (intros H; apply Hs1 in H; lia);
      try (intros [H1 H2]; apply Hs2; lia);
      try match goal with
          | H : _ || _ = true |- _ => apply Hs1 in H; lia
          end.
Qed.

Lemma shr_nonneg (mrs : shr_record) (e n : Z) :
  0 <= n -> shr mrs e n = (Nat.iter (Z.to_nat n) shr_1 mrs, e + n).
Proof.
  intros Hn. unfold shr. destruct n as [| p | p]; try lia.
  - simpl. now rewrite Z.add_0_r.
  - now rewrite iter_pos_nat.
Qed.

Lemma shr_nonpos (mrs : shr_record) (e n : Z) :
  n <= 0 -> shr mrs e n = (mrs, e).
Proof. intros Hn. unfold shr. destruct n as [| p | p]; try lia; reflexivity. Qed.

Lemma round_nearest_even_cases (q : Z) (rb sb : bool) (P r : Z) :
  (rb = true <-> P <= 2 * r) ->
  round_nearest_even q
    (loc_of_shr_record {| shr_m := q; shr_r := rb; shr_s := sb |}) = q
  \/ (round_nearest_even q
        (loc_of_shr_record {| shr_m := q; shr_r := rb; shr_s := sb |}) = q + 1
      /\ P <= 2 * r).
Proof.
  intros Hrb. destruct rb, sb; simpl.
  - right. split; [reflexivity | now apply Hrb].
  - destruct (Z.even q); [now left | right; split; [reflexivity | now apply Hrb]].
  - now left.
  - now left.
Qed.

Lemma Zdigits2_small (m : Z) :
  0 < m < 2 ^ 53 -> Zdigits2 m <= 53.
Proof.
  intros [Hpos Hlt]. destruct m as [| p | p]; try lia. simpl.
  pose proof (digits2_bounds p) as [Hlo _].
  assert (Zpos (digits2_pos p) - 1 < 53); [| lia].
  apply (pow2_lt_inv _ _ (Zpos p)); lia.
Qed.

Lemma bra_spec (s : bool) (M : positive) (E : Z) :
  let e1 := fexp prec emax (Zpos (digits2_pos M) + E) in
  E <= e1 ->
  exists q r m2 m3 e3,
    Zpos M = q * 2 ^ (e1 - E) + r
    /\ 0 <= r < 2 ^ (e1 - E)
    /\ 0 <= q < 2 ^ 53
    /\ (-1074 < e1 -> 2 ^ 52 <= q)
    /\ (m2 = q \/ (m2 = q + 1 /\ 2 ^ (e1 - E) <= 2 * r))
    /\ ((m3 = m2 /\ e3 = e1 /\ m2 < 2 ^ 53)
        \/ (m2 = 2 ^ 53 /\ m3 = 2 ^ 52 /\ e3 = e1 + 1))
    /\ binary_round_aux prec emax s (Zpos M) E loc_Exact =
       match m3 with
       | Z0 => S754_zero s
       | Zpos m => if e3 <=? 971 then S754_finite s m e3 else S754_infinity s
       | Zneg _ => S754_nan
       end.
Proof.
  intros e1 HE.
  pose proof (digits2_bounds M) as [Hdlo Hdhi].
  set (d := Zpos (digits2_pos M)) in *.
  assert (He1 : e1 = Z.max (d + E - 53) (-1074)) by (unfold e1; now rewrite fexp_eq).
  unfold binary_round_aux, shr_fexp.
  change (Zdigits2 (Zpos M)) with d. fold e1.
  rewrite shr_nonneg by lia.
  destruct (shr_1_iter (Zpos M) (Z.to_nat (e1 - E)) ltac:(lia))
    as [q [r [rb [sb [Hit [HMq [Hr [Hq [Hrb _]]]]]]]]].
  rewrite Z2Nat.id in * by lia.
  pose proof (pow2_pos (e1 - E) ltac:(lia)) as HP.
  simpl shr_record_of_loc. rewrite Hit.
  replace (E + (e1 - E)) with e1 by lia.
  cbn [shr_m].
  assert (Hq53 : q < 2 ^ 53).
  { assert (H : 2 ^ d <= 2 ^ 53 * 2 ^ (e1 - E)).
    { rewrite <- Z.pow_add_r by lia. apply pow2_le. lia. }
    nia. }
  assert (Hq52 : -1074 < e1 -> 2 ^ 52 <= q).
  { intros Hnorm.
    assert (H : 2 ^ (d - 1) = 2 ^ 52 * 2 ^ (e1 - E)).
    { rewrite <- Z.pow_add_r by lia. f_equal. lia. }
    nia. }
  destruct (round_nearest_even_cases q rb sb _ r Hrb) as [Hm2 | [Hm2 Hhalf]];
    rewrite Hm2.
  - (* rounded down *)
    exists q, r, q, q, e1.
    assert (Hn' : fexp prec emax (Zdigits2 q + e1) - e1 <= 0).
    { rewrite fexp_eq. destruct (Z.eq_dec q 0) as [-> | Hnz]; [simpl; lia |].
      pose proof (Zdigits2_small q ltac:(lia)). lia. }
    rewrite shr_nonpos by exact Hn'. cbn [shr_m].
    split; [exact HMq |]. split; [exact Hr |]. split; [lia |].
    split; [exact Hq52 |]. split; [now left |].
    split; [left; repeat split; lia | reflexivity].
  - (* rounded up *)
    destruct (Z.eq_dec (q + 1) (2 ^ 53)) as [Hcarry | Hnocarry].
    + exists q, r, (q + 1), (2 ^ 52), (e1 + 1).
      split; [exact HMq |]. split; [exact Hr |]. split; [lia |].
      split; [exact Hq52 |]. split; [right; split; [reflexivity | exact Hhalf] |].
      split; [right; repeat split; lia |].
      rewrite Hcarry.
      replace (fexp prec emax (Zdigits2 (2 ^ 53) + e1) - e1) with 1
        by (rewrite fexp_eq; change (Zdigits2 (2 ^ 53)) with 54; lia).
      reflexivity.
    + exists q, r, (q + 1), (q + 1), e1.
      assert (Hn' : fexp prec emax (Zdigits2 (q + 1) + e1) - e1 <= 0).
      { rewrite fexp_eq. pose proof (Zdigits2_small (q + 1) ltac:(lia)). lia. }
      rewrite shr_nonpos by exact Hn'. cbn [shr_m].
      split; [exact HMq |]. split; [exact Hr |]. split; [lia |].
      split; [exact Hq52 |]. split; [right; split; [reflexivity | exact Hhalf] |].
      split; [left; repeat split; lia | reflexivity].
Qed.

Lemma grid_eq : grid = 2148.
Proof. reflexivity. Qed.

Opaque grid.
Arguments grid_val : simpl never.

Lemma val_pos (m e : Z) : 0 < m -> 0 <= e + grid -> 0 < grid_val m e.
Proof.
  intros Hm He. unfold grid_val. pose proof (pow2_pos (e + grid) He). nia.
Qed.

(** What a valid finite float knows of its mantissa and exponent. *)
Lemma bounded_facts (m : positive) (e : Z) :
  bounded prec emax m e = true ->
  -1074 <= e <= 971 /\ Zpos m < 2 ^ 53 /\ (-1074 < e -> 2 ^ 52 <= Zpos m).
Proof.
  unfold bounded, canonical_mantissa. rewrite andb_true_iff, fexp_eq.
  rewrite Z.eqb_eq, Z.leb_le. change (emax - prec) with 971.
  intros [Hcanon Hmax].
  pose proof (digits2_bounds m) as [Hlo Hhi].
  set (d := Zpos (digits2_pos m)) in *.
  assert (Hd : 0 < d) by (unfold d; lia).
  split; [lia |]. split.
  - assert (H : 2 ^ d <= 2 ^ 53) by (apply pow2_le; lia). lia.
  - intros Hnorm. assert (Hd53 : d = 53) by lia.
    rewrite Hd53 in Hlo. exact Hlo.
Qed.

(** Among valid finite floats the one with the greater exponent is the
    greater. *)
Lemma val_lt_exponent (m1 m2 : positive) (e1 e2 : Z) :
  bounded prec emax m1 e1 = true -> bounded prec emax m2 e2 = true ->
  e1 < e2 -> grid_val (Zpos m1) e1 < grid_val (Zpos m2) e2.
Proof.
  intros H1 H2 Hlt.
  apply bounded_facts in H1. apply bounded_facts in H2.
  destruct H1 as [He1 [Hm1 _]]. destruct H2 as [He2 [_ Hm2]].
  specialize (Hm2 ltac:(lia)). unfold grid_val.
  pose proof grid_eq as HU.
  assert (Hsplit : 2 ^ (e2 + grid) = 2 ^ (e2 - e1) * 2 ^ (e1 + grid)).
  { rewrite <- Z.pow_add_r by lia. f_equal. lia. }
  pose proof (pow2_pos (e1 + grid) ltac:(lia)) as HK.
  assert (Hstep : 2 <= 2 ^ (e2 - e1)).
  { change 2 with (2 ^ 1) at 1. apply pow2_le. lia. }
  rewrite Hsplit. nia.
Qed.

Lemma compare_magnitude (m1 m2 : positive) (e1 e2 : Z) :
  bounded prec emax m1 e1 = true -> bounded prec emax m2 e2 = true ->
  match e1 ?= e2 with
  | Lt => Lt
  | Gt => Gt
  | Eq => Pos.compare_cont Eq m1 m2
  end = (grid_val (Zpos m1) e1 ?= grid_val (Zpos m2) e2).
Proof.
  intros H1 H2. symmetry.
  destruct (Z.compare_spec e1 e2) as [Heq | Hlt | Hgt].
  - subst e2. apply bounded_facts in H1. destruct H1 as [He1 _].
    pose proof grid_eq. pose proof (pow2_pos (e1 + grid) ltac:(lia)) as HK.
    unfold grid_val. change (Pos.compare_cont Eq m1 m2) with (Zpos m1 ?= Zpos m2).
    destruct (Z.compare_spec (Zpos m1) (Zpos m2)) as [Hm | Hm | Hm].
    + rewrite Hm. apply Z.compare_refl.
    + apply Z.compare_lt_iff. nia.
    + apply Z.compare_gt_iff. nia.
  - apply Z.compare_lt_iff. now apply val_lt_exponent.
  - apply Z.compare_gt_iff. now apply val_lt_exponent.
Qed.

(** On valid floats that are finite or zero, the comparison of the
    specification is the comparison of the values. *)
Lemma SFcompare_val (f g : spec_float) :
  valid_binary f = true -> valid_binary g = true ->
  SFfinite f = true -> SFfinite g = true ->
  SFcompare f g = Some (SFval f ?= SFval g).
Proof.
  intros Hf Hg Hff Hfg.
  destruct f as [sf | sf | | sf mf ef]; try discriminate Hff;
    destruct g as [sg | sg | | sg mg eg]; try discriminate Hfg;
    simpl in Hf, Hg; cbn [SFcompare SFval].
  - reflexivity.
  - f_equal. pose proof (bounded_facts _ _ Hg) as [He _]. pose proof grid_eq.
    pose proof (val_pos (Zpos mg) eg ltac:(lia) ltac:(lia)).
    destruct sg; cbn [cond_Zopp]; symmetry;
      [apply Z.compare_gt_iff | apply Z.compare_lt_iff]; lia.
  - f_equal. pose proof (bounded_facts _ _ Hf) as [He _]. pose proof grid_eq.
    pose proof (val_pos (Zpos mf) ef ltac:(lia) ltac:(lia)).
    destruct sf; cbn [cond_Zopp]; symmetry;
      [apply Z.compare_lt_iff | apply Z.compare_gt_iff]; lia.
  - f_equal.
    pose proof (bounded_facts _ _ Hf) as [Hef _].
    pose proof (bounded_facts _ _ Hg) as [Heg _]. pose proof grid_eq.
    pose proof (val_pos (Zpos mf) ef ltac:(lia) ltac:(lia)).
    pose proof (val_pos (Zpos mg) eg ltac:(lia) ltac:(lia)).
    destruct sf, sg; cbn [cond_Zopp].
    + rewrite Z.compare_opp.
      rewrite (Z.compare_antisym (grid_val (Zpos mf) ef) (grid_val (Zpos mg) eg)).
      rewrite <- (compare_magnitude mf mg ef eg Hf Hg).
      destruct (ef ?= eg); reflexivity.
    + symmetry. apply Z.compare_lt_iff. lia.
    + symmetry. apply Z.compare_gt_iff. lia.
    + apply compare_magnitude; assumption.
Qed.

(** The rounding of a positive mantissa and exponent, in terms of values:
    with [P] the weight of the rounding position and [K] the weight of the
    last bit of the input, the input is [(q * P + r) * K] and the result
    [m2 * P * K] for [m2] the quotient [q] or its successor. *)
Lemma bra_value (s : bool) (M : positive) (E : Z) :
  let e1 := fexp prec emax (Zpos (digits2_pos M) + E) in
  - grid <= E -> E <= e1 ->
  exists q r m2 P K,
    P = 2 ^ (e1 - E) /\ K = 2 ^ (E + grid) /\ P * K = 2 ^ (e1 + grid)
    /\ 0 < P /\ 0 < K
    /\ grid_val (Zpos M) E = (q * P + r) * K
    /\ 0 <= r < P
    /\ 0 <= q < 2 ^ 53
    /\ (-1074 < e1 -> 2 ^ 52 <= q)
    /\ (m2 = q \/ (m2 = q + 1 /\ P <= 2 * r))
    /\ ((m2 = 0 /\ binary_round_aux prec emax s (Zpos M) E loc_Exact = S754_zero s)
        \/ (0 < m2 /\ exists m e3,
              grid_val (Zpos m) e3 = m2 * P * K
              /\ (e3 = e1 \/ (e3 = e1 + 1 /\ m2 = 2 ^ 53))
              /\ (-1074 < e1 -> 2 ^ 52 <= Zpos m)
              /\ binary_round_aux prec emax s (Zpos M) E loc_Exact
                 = if e3 <=? 971 then S754_finite s m e3 else S754_infinity s)).
Proof.
  intros e1 HEU HE.
  destruct (bra_spec s M E HE)
    as [q [r [m2 [m3 [e3 [HM [Hr [Hq [Hq52 [Hm2 [Hm3 Hbra]]]]]]]]]]].
  fold e1 in HM, Hr, Hq52, Hm2, Hm3.
  exists q, r, m2, (2 ^ (e1 - E)), (2 ^ (E + grid)).
  assert (HPK : 2 ^ (e1 - E) * 2 ^ (E + grid) = 2 ^ (e1 + grid)).
  { rewrite <- Z.pow_add_r by lia. f_equal. lia. }
  pose proof (pow2_pos (e1 - E) ltac:(lia)) as HP.
  pose proof (pow2_pos (E + grid) ltac:(lia)) as HK.
  split; [reflexivity |]. split; [reflexivity |]. split; [exact HPK |].
  split; [exact HP |]. split; [exact HK |].
  split; [unfold grid_val; now rewrite HM |].
  split; [exact Hr |]. split; [exact Hq |]. split; [exact Hq52 |].
  split; [exact Hm2 |].
  assert (Hm2nonneg : 0 <= m2) by lia.
  destruct Hm3 as [[-> [-> Hlt]] | [Hcarry [-> ->]]].
  - destruct m2 as [| m | m]; try lia.
    + left. split; [reflexivity | exact Hbra].
    + right. split; [lia |]. exists m, e1.
      split; [unfold grid_val; rewrite <- HPK; ring |].
      split; [now left |]. split; [lia | exact Hbra].
  - right. split; [lia |].
    change (2 ^ 52) with (Zpos 4503599627370496) in Hbra.
    exists 4503599627370496%positive, (e1 + 1).
    split.
    { unfold grid_val. replace (e1 + 1 + grid) with (1 + (e1 + grid)) by lia.
      rewrite Z.pow_add_r by lia. rewrite <- HPK, Hcarry.
      change (Zpos 4503599627370496) with (2 ^ 52). change (2 ^ 1) with 2.
      change (2 ^ 53) with (2 * 2 ^ 52). ring. }
    split; [right; split; [reflexivity | exact Hcarry] |].
    split; [intros _; change (Zpos 4503599627370496) with (2 ^ 52); lia |].
    exact Hbra.
Qed.

(** Rounding does not jump over a float: what lies at or below a valid
    float rounds to a float at or below it. *)
Lemma bra_le (M mr : positive) (E er : Z) :
  - grid <= E -> E <= fexp prec emax (Zpos (digits2_pos M) + E) ->
  bounded prec emax mr er = true ->
  grid_val (Zpos M) E <= grid_val (Zpos mr) er ->
  binary_round_aux prec emax false (Zpos M) E loc_Exact = S754_zero false
  \/ exists m e,
       binary_round_aux prec emax false (Zpos M) E loc_Exact = S754_finite false m e
       /\ grid_val (Zpos m) e <= grid_val (Zpos mr) er.
Proof.
  intros HEU HE Hb Hle.
  destruct (bra_value false M E HEU HE)
    as [q [r [m2 [P [K [HP [HK [HPK [HP0 [HK0 [HM [Hr [Hq [Hq52 [Hm2 Hres]]]]]]]]]]]]]]].
  set (e1 := fexp prec emax (Zpos (digits2_pos M) + E)) in *.
  pose proof (bounded_facts mr er Hb) as [Her [Hmr _]].
  pose proof grid_eq as HU.
  assert (He1 : -1074 <= e1) by (unfold e1; rewrite fexp_eq; lia).
  (* the float is coarser than the rounding position *)
  assert (Hexp : e1 <= er).
  { destruct (Z.le_gt_cases e1 er) as [| Hgt]; [assumption | exfalso].
    specialize (Hq52 ltac:(lia)).
    assert (H1 : grid_val (Zpos mr) er < 2 ^ 53 * 2 ^ (er + grid)).
    { unfold grid_val. pose proof (pow2_pos (er + grid) ltac:(lia)). nia. }
    assert (H2 : 2 ^ 53 * 2 ^ (er + grid) <= 2 ^ 52 * (P * K)).
    { rewrite HPK, <- !Z.pow_add_r by lia. apply pow2_le. lia. }
    nia. }
  assert (HR : grid_val (Zpos mr) er = (Zpos mr * 2 ^ (er - e1)) * (P * K)).
  { unfold grid_val. rewrite HPK, <- Z.mul_assoc, <- Z.pow_add_r by lia.
    do 2 f_equal. lia. }
  set (R := Zpos mr * 2 ^ (er - e1)) in *.
  assert (Hm2R : m2 <= R) by nia.
  destruct Hres as [[_ Hzero] | [Hpos [m [e3 [Hval [He3 [_ Hbra]]]]]]].
  - now left.
  - right. exists m, e3.
    assert (Hno : e3 <= 971).
    { destruct He3 as [-> | [-> Hcarry]]; [lia |].
      destruct (Z.eq_dec er e1) as [Heq | Hne]; [| lia].
      exfalso. unfold R in Hm2R. rewrite Heq, Z.sub_diag in Hm2R.
      change (2 ^ 0) with 1 in Hm2R. lia. }
    apply Z.leb_le in Hno. rewrite Hno in Hbra.
    split; [exact Hbra |]. rewrite Hval, HR. nia.
Qed.

(** What lies at or above a valid float rounds to a float at or above it,
    or overflows. *)
Lemma bra_ge (M mr : positive) (E er : Z) :
  - grid <= E -> E <= fexp prec emax (Zpos (digits2_pos M) + E) ->
  bounded prec emax mr er = true ->
  grid_val (Zpos mr) er <= grid_val (Zpos M) E ->
  binary_round_aux prec emax false (Zpos M) E loc_Exact = S754_infinity false
  \/ exists m e,
       binary_round_aux prec emax false (Zpos M) E loc_Exact = S754_finite false m e
       /\ grid_val (Zpos mr) er <= grid_val (Zpos m) e.
Proof.
  intros HEU HE Hb Hle.
  destruct (bra_value false M E HEU HE)
    as [q [r [m2 [P [K [HP [HK [HPK [HP0 [HK0 [HM [Hr [Hq [Hq52 [Hm2 Hres]]]]]]]]]]]]]]].
  set (e1 := fexp prec emax (Zpos (digits2_pos M) + E)) in *.
  pose proof (bounded_facts mr er Hb) as [Her [Hmr _]].
  pose proof grid_eq as HU.
  assert (He1 : -1074 <= e1) by (unfold e1; rewrite fexp_eq; lia).
  assert (Hrpos : 0 < grid_val (Zpos mr) er) by (apply val_pos; lia).
  assert (Hqv : grid_val (Zpos mr) er <= q * (P * K)).
  { destruct (Z.le_gt_cases e1 er) as [Hexp | Hgt].
    - assert (HR : grid_val (Zpos mr) er = (Zpos mr * 2 ^ (er - e1)) * (P * K)).
      { unfold grid_val. rewrite HPK, <- Z.mul_assoc, <- Z.pow_add_r by lia.
        do 2 f_equal. lia. }
      set (R := Zpos mr * 2 ^ (er - e1)) in *.
      assert (R <= q) by nia. rewrite HR. nia.
    - specialize (Hq52 ltac:(lia)).
      assert (H1 : grid_val (Zpos mr) er < 2 ^ 53 * 2 ^ (er + grid)).
      { unfold grid_val. pose proof (pow2_pos (er + grid) ltac:(lia)). nia. }
      assert (H2 : 2 ^ 53 * 2 ^ (er + grid) <= 2 ^ 52 * (P * K)).
      { rewrite HPK, <- !Z.pow_add_r by lia. apply pow2_le. lia. }
      nia. }
  assert (Hm2q : q <= m2) by lia.
  destruct Hres as [[Hzero _] | [Hpos [m [e3 [Hval [He3 [_ Hbra]]]]]]].
  - exfalso. nia.
  - destruct (e3 <=? 971); [right | now left].
    exists m, e3. split; [exact Hbra |]. rewrite Hval. nia.
Qed.

Lemma digits_le_of_val_lt (M : positive) (E k : Z) :
  0 <= E + grid -> 0 <= k + grid ->
  grid_val (Zpos M) E < 2 ^ (k + grid) ->
  Zpos (digits2_pos M) + E <= k.
Proof.
  intros HE Hk Hlt.
  pose proof (digits2_bounds M) as [Hlo _].
  set (d := Zpos (digits2_pos M)) in *.
  assert (Hd : 0 < d) by (unfold d; lia).
  assert (H : 2 ^ (d - 1 + (E + grid)) <= grid_val (Zpos M) E).
  { unfold grid_val. rewrite Z.pow_add_r by lia.
    pose proof (pow2_pos (E + grid) HE). nia. }
  assert (d - 1 + (E + grid) < k + grid); [| lia].
  apply (pow2_lt_inv _ _ (grid_val (Zpos M) E)); lia.
Qed.

(** A result above the exact value is a normal float above the least
    exponent: rounding up needs a bit to round. *)
Lemma bra_up_normal (M m : positive) (E e : Z) :
  -1074 <= E -> E <= fexp prec emax (Zpos (digits2_pos M) + E) ->
  binary_round_aux prec emax false (Zpos M) E loc_Exact = S754_finite false m e ->
  grid_val (Zpos M) E < grid_val (Zpos m) e ->
  -1074 < e /\ 2 ^ 52 <= Zpos m.
Proof.
  intros HE1 HE Hfin Hlt. pose proof grid_eq as HU.
  destruct (bra_value false M E ltac:(lia) HE)
    as [q [r [m2 [P [K [HP [HK [HPK [HP0 [HK0 [HM [Hr [Hq [Hq52 [Hm2 Hres]]]]]]]]]]]]]]].
  set (e1 := fexp prec emax (Zpos (digits2_pos M) + E)) in *.
  destruct Hres as [[_ Hzero] | [Hpos [m' [e3 [Hval [He3 [Hnorm Hbra]]]]]]];
    [congruence |].
  rewrite Hfin in Hbra.
  destruct (e3 <=? 971); [| discriminate Hbra].
  injection Hbra as -> ->.
  rewrite Hval, HM in Hlt.
  assert (Hup : m2 = q + 1 /\ P <= 2 * r) by (destruct Hm2 as [-> | H]; [nia | exact H]).
  destruct Hup as [_ Hhalf].
  assert (Hshift : E < e1).
  { destruct (Z.eq_dec e1 E) as [Heq | Hne]; [| lia].
    rewrite Heq, Z.sub_diag in HP. change (2 ^ 0) with 1 in HP. lia. }
  split; [lia | apply Hnorm; lia].
Qed.

(** The product of a normal float above the least exponent with a factor
    of at most [1 - 2^-53] rounds strictly below that float. *)
Lemma bra_lt_normal (M mx : positive) (E ex : Z) :
  - grid <= E -> E <= fexp prec emax (Zpos (digits2_pos M) + E) ->
  bounded prec emax mx ex = true ->
  2 ^ 52 <= Zpos mx -> -1074 < ex ->
  grid_val (Zpos M) E + Zpos mx * 2 ^ (ex - 53 + grid) <= grid_val (Zpos mx) ex ->
  binary_round_aux prec emax false (Zpos M) E loc_Exact = S754_zero false
  \/ exists m e,
       binary_round_aux prec emax false (Zpos M) E loc_Exact = S754_finite false m e
       /\ grid_val (Zpos m) e < grid_val (Zpos mx) ex.
Proof.
  intros HEU HE Hb Hmx Hex Hhyp. pose proof grid_eq as HU.
  pose proof (bounded_facts mx ex Hb) as [Hexr [Hmx53 _]].
  destruct (bra_value false M E HEU HE)
    as [q [r [m2 [P [K [HP [HK [HPK [HP0 [HK0 [HM [Hr [Hq [Hq52 [Hm2 Hres]]]]]]]]]]]]]]].
  set (e1 := fexp prec emax (Zpos (digits2_pos M) + E)) in *.
  assert (He1 : e1 = Z.max (Zpos (digits2_pos M) + E - 53) (-1074))
    by (unfold e1; now rewrite fexp_eq).
  pose proof (pow2_pos (ex - 53 + grid) ltac:(lia)) as HH0.
  set (H := 2 ^ (ex - 53 + grid)) in *.
  assert (HX : grid_val (Zpos mx) ex = Zpos mx * (2 ^ 53 * H)).
  { unfold grid_val, H. rewrite <- Z.pow_add_r by lia. do 2 f_equal. lia. }
  assert (Hval2 : 2 * (m2 * P * K) < 2 * grid_val (Zpos mx) ex).
  { destruct Hm2 as [-> | [-> Hhalf]]; [nia |].
    destruct (Z.eq_dec (Zpos mx) (2 ^ 52)) as [Hmin | Hbig].
    - (* the float is a power of two: the product lies one binade lower *)
      assert (Hd : Zpos (digits2_pos M) + E <= 52 + ex).
      { apply digits_le_of_val_lt; try lia.
        replace (52 + ex + grid) with (52 + 53 + (ex - 53 + grid)) by lia.
        rewrite Z.pow_add_r by lia. fold H.
        rewrite HX in Hhyp. rewrite Hmin in Hhyp.
        change (2 ^ (52 + 53)) with (2 ^ 52 * 2 ^ 53). nia. }
      assert (HPK' : P * K <= 2 ^ 52 * H).
      { rewrite HPK. unfold H. rewrite <- Z.pow_add_r by lia. apply pow2_le. lia. }
      rewrite HX in Hhyp |- *. rewrite Hmin in Hhyp |- *. nia.
    - assert (Hd : Zpos (digits2_pos M) + E <= 53 + ex).
      { apply digits_le_of_val_lt; try lia.
        replace (53 + ex + grid) with (53 + 53 + (ex - 53 + grid)) by lia.
        rewrite Z.pow_add_r by lia. fold H.
        change (2 ^ (53 + 53)) with (2 ^ 53 * 2 ^ 53). nia. }
      assert (HPK' : P * K <= 2 ^ 53 * H).
      { rewrite HPK. unfold H. rewrite <- Z.pow_add_r by lia. apply pow2_le. lia. }
      nia. }
  destruct Hres as [[_ Hzero] | [Hpos [m [e3 [Hval [He3 [_ Hbra]]]]]]].
  - now left.
  - right. exists m, e3.
    assert (Hno : e3 <= 971).
    { destruct He3 as [-> | [-> Hcarry]].
      - assert (Zpos (digits2_pos M) + E <= 53 + ex); [| lia].
        apply digits_le_of_val_lt; try lia.
        replace (53 + ex + grid) with (53 + 53 + (ex - 53 + grid)) by lia.
        rewrite Z.pow_add_r by lia. fold H.
        change (2 ^ (53 + 53)) with (2 ^ 53 * 2 ^ 53). nia.
      - destruct (Z.le_gt_cases (e1 + 1) 971) as [| Hgt]; [assumption | exfalso].
        assert (Hd : Zpos (digits2_pos M) + E <= 53 + ex).
        { apply digits_le_of_val_lt; try lia.
          replace (53 + ex + grid) with (53 + 53 + (ex - 53 + grid)) by lia.
          rewrite Z.pow_add_r by lia. fold H.
          change (2 ^ (53 + 53)) with (2 ^ 53 * 2 ^ 53). nia. }
        assert (Heq : e1 = ex) by lia.
        assert (HPKeq : P * K = 2 ^ 53 * H).
        { rewrite HPK, Heq. unfold H. rewrite <- Z.pow_add_r by lia. f_equal. lia. }
        rewrite Hcarry, HX in Hval2. nia. }
    apply Z.leb_le in Hno. rewrite Hno in Hbra.
    split; [exact Hbra |]. rewrite Hval. lia.
Qed.

Lemma iter_xO_val (d m : positive) :
  Zpos (Pos.iter xO m d) = Zpos m * 2 ^ Zpos d.
Proof.
  induction d as [| d IH] using Pos.peano_ind.
  - simpl. lia.
  - rewrite Pos.iter_succ, Pos2Z.inj_xO, IH, Pos2Z.inj_succ, Z.pow_succ_r by lia.
    ring.
Qed.

Lemma iter_xO_digits (d m : positive) :
  Zpos (digits2_pos (Pos.iter xO m d)) = Zpos (digits2_pos m) + Zpos d.
Proof.
  induction d as [| d IH] using Pos.peano_ind.
  - simpl. lia.
  - rewrite Pos.iter_succ. cbn [digits2_pos]. rewrite Pos2Z.inj_succ, IH. lia.
Qed.

(** Aligning a mantissa to a lower exponent keeps the value. *)
Lemma shl_align_spec (m : positive) (e e' : Z) :
  e' <= e ->
  exists m', shl_align m e e' = (m', e')
             /\ Zpos m' = Zpos m * 2 ^ (e - e')
             /\ Zpos (digits2_pos m') = Zpos (digits2_pos m) + (e - e').
Proof.
  intros Hle. unfold shl_align.
  destruct (e' - e) as [| d | d] eqn:Hd; try lia.
  - assert (e' = e) by lia. subst e'. exists m.
    rewrite Z.sub_diag. change (2 ^ 0) with 1. repeat split; lia.
  - exists (Pos.iter xO m d).
    replace (e - e') with (Zpos d) by lia.
    repeat split; [apply iter_xO_val | apply iter_xO_digits].
Qed.

Lemma shl_align_above (m : positive) (e e' : Z) :
  e <= e' -> shl_align m e e' = (m, e).
Proof.
  intros Hle. unfold shl_align. destruct (e' - e) as [| d | d] eqn:Hd; try lia; reflexivity.
Qed.

(** [binary_round] is the rounding of a pair that is aligned to its
    rounding position. *)
Lemma binary_round_spec (s : bool) (M : positive) (E : Z) :
  -1074 <= E ->
  exists M' E',
    binary_round prec emax s M E
    = binary_round_aux prec emax s (Zpos M') E' loc_Exact
    /\ grid_val (Zpos M') E' = grid_val (Zpos M) E
    /\ -1074 <= E'
    /\ E' <= fexp prec emax (Zpos (digits2_pos M') + E').
Proof.
  intros HE. unfold binary_round. pose proof grid_eq as HU.
  set (t := fexp prec emax (Zpos (digits2_pos M) + E)).
  assert (Ht : -1074 <= t) by (unfold t; rewrite fexp_eq; lia).
  destruct (Z.le_gt_cases E t) as [Hle | Hgt].
  - rewrite shl_align_above by exact Hle. exists M, E.
    repeat split; [lia | exact Hle].
  - destruct (shl_align_spec M E t ltac:(lia)) as [M' [Hal [Hval Hdig]]].
    rewrite Hal. exists M', t. split; [reflexivity |]. split.
    + unfold grid_val. rewrite Hval, <- Z.mul_assoc, <- Z.pow_add_r by lia.
      do 2 f_equal. lia.
    + split; [exact Ht |]. rewrite Hdig.
      replace (Zpos (digits2_pos M) + (E - t) + t) with (Zpos (digits2_pos M) + E) by lia.
      fold t. lia.
Qed.

(** The sign only labels the result of a rounding. *)
Lemma bra_sign (s : bool) (M E : Z) (l : location) :
  binary_round_aux prec emax s M E l
  = with_sign s (binary_round_aux prec emax false M E l).
Proof.
  unfold binary_round_aux.
  destruct (shr_fexp prec emax M E l) as [mrs' e'].
  destruct (shr_fexp prec emax _ e' loc_Exact) as [mrs'' e''].
  destruct (shr_m mrs''); [reflexivity | | reflexivity].
  now destruct (e'' <=? emax - prec).
Qed.

Lemma is_rounding_exact (v : Z) (x : spec_float) :
  SFfinite x = true -> SFval x = v -> is_rounding v x.
Proof.
  intros Hfin <-.
  split; [| split; [| split]]; try (intros; right; split; [assumption | lia]);
    intros; lia.
Qed.

(** The three shapes of a rounding with the positive sign. *)
Lemma bra_shape (M : positive) (E : Z) :
  - grid <= E -> E <= fexp prec emax (Zpos (digits2_pos M) + E) ->
  binary_round_aux prec emax false (Zpos M) E loc_Exact = S754_zero false
  \/ binary_round_aux prec emax false (Zpos M) E loc_Exact = S754_infinity false
  \/ exists m e,
       binary_round_aux prec emax false (Zpos M) E loc_Exact
       = S754_finite false m e.
Proof.
  intros HEU HE.
  destruct (bra_value false M E HEU HE)
    as [q [r [m2 [P [K [_ [_ [_ [_ [_ [_ [_ [_ [_ [_ Hres]]]]]]]]]]]]]]].
  destruct Hres as [[_ Hzero] | [_ [m [e3 [_ [_ [_ Hbra]]]]]]]; [now left | right].
  rewrite Hbra. destruct (e3 <=? 971); [right; now exists m, e3 | now left].
Qed.

Lemma finite_positive_of_val (g : spec_float) :
  valid_binary g = true -> SFfinite g = true -> 0 < SFval g ->
  exists m e, g = S754_finite false m e /\ bounded prec emax m e = true.
Proof.
  intros Hv Hf Hpos. pose proof grid_eq.
  destruct g as [s | s | | s m e]; try discriminate Hf; simpl in Hpos; try lia.
  simpl in Hv. pose proof (bounded_facts m e Hv) as [He _].
  pose proof (val_pos (Zpos m) e ltac:(lia) ltac:(lia)).
  destruct s; simpl in Hpos; [lia |]. now exists m, e.
Qed.

Lemma finite_negative_of_val (g : spec_float) :
  valid_binary g = true -> SFfinite g = true -> SFval g < 0 ->
  exists m e, g = S754_finite true m e /\ bounded prec emax m e = true.
Proof.
  intros Hv Hf Hneg. pose proof grid_eq.
  destruct g as [s | s | | s m e]; try discriminate Hf; simpl in Hneg; try lia.
  simpl in Hv. pose proof (bounded_facts m e Hv) as [He _].
  pose proof (val_pos (Zpos m) e ltac:(lia) ltac:(lia)).
  destruct s; simpl in Hneg; [| lia]. now exists m, e.
Qed.

Lemma bra_rounding (s : bool) (M : positive) (E : Z) :
  -1074 <= E -> E <= fexp prec emax (Zpos (digits2_pos M) + E) ->
  is_rounding (cond_Zopp s (grid_val (Zpos M) E))
    (binary_round_aux prec emax s (Zpos M) E loc_Exact).
Proof.
  intros HE1 HE. pose proof grid_eq as HU.
  assert (HEU : - grid <= E) by lia.
  pose proof (val_pos (Zpos M) E ltac:(lia) ltac:(lia)) as Hv.
  rewrite bra_sign.
  set (x0 := binary_round_aux prec emax false (Zpos M) E loc_Exact).
  split; [| split; [| split]].
  - intros g Hg Hfg Hle. destruct s; cbn [cond_Zopp] in Hle.
    + destruct (Z.lt_ge_cases (SFval g) 0) as [Hneg | Hnonneg].
      * destruct (finite_negative_of_val g Hg Hfg Hneg) as [mg [eg [-> Hb]]].
        cbn [SFval cond_Zopp] in Hle |- *.
        destruct (bra_ge M mg E eg HEU HE Hb ltac:(lia)) as [Hinf | [m [e [Hx Hval]]]];
          fold x0 in Hinf || fold x0 in Hx.
        -- left. now rewrite Hinf.
        -- right. rewrite Hx. cbn [with_sign SFfinite SFval cond_Zopp]. split; [reflexivity | lia].
      * destruct (bra_shape M E HEU HE) as [Hx | [Hx | [m [e Hx]]]];
          fold x0 in Hx; rewrite Hx; cbn [with_sign].
        -- right. split; [reflexivity | simpl; lia].
        -- now left.
        -- right. split; [reflexivity |]. cbn [SFval cond_Zopp].
           assert (0 <= grid_val (Zpos m) e); [| lia].
           unfold grid_val. apply Z.mul_nonneg_nonneg; [lia | apply Z.pow_nonneg; lia].
    + destruct (finite_positive_of_val g Hg Hfg ltac:(lia)) as [mg [eg [-> Hb]]].
      cbn [SFval cond_Zopp] in Hle |- *.
      destruct (bra_le M mg E eg HEU HE Hb Hle) as [Hzero | [m [e [Hx Hval]]]];
        fold x0 in Hzero || fold x0 in Hx.
      * right. rewrite Hzero. cbn [with_sign SFfinite SFval].
        split; [reflexivity |].
        pose proof (bounded_facts mg eg Hb) as [Heg _].
        pose proof (val_pos (Zpos mg) eg ltac:(lia) ltac:(lia)). lia.
      * right. rewrite Hx. cbn [with_sign SFfinite SFval cond_Zopp]. split; [reflexivity | exact Hval].
  - intros g Hg Hfg Hle. destruct s; cbn [cond_Zopp] in Hle.
    + destruct (finite_negative_of_val g Hg Hfg ltac:(lia)) as [mg [eg [-> Hb]]].
      cbn [SFval cond_Zopp] in Hle |- *.
      destruct (bra_le M mg E eg HEU HE Hb ltac:(lia)) as [Hzero | [m [e [Hx Hval]]]];
        fold x0 in Hzero || fold x0 in Hx.
      * right. rewrite Hzero. cbn [with_sign SFfinite SFval].
        split; [reflexivity |].
        pose proof (bounded_facts mg eg Hb) as [Heg _].
        pose proof (val_pos (Zpos mg) eg ltac:(lia) ltac:(lia)). lia.
      * right. rewrite Hx. cbn [with_sign SFfinite SFval cond_Zopp]. split; [reflexivity | lia].
    + destruct (Z.lt_ge_cases 0 (SFval g)) as [Hpos | Hnonpos].
      * destruct (finite_positive_of_val g Hg Hfg Hpos) as [mg [eg [-> Hb]]].
        cbn [SFval cond_Zopp] in Hle |- *.
        destruct (bra_ge M mg E eg HEU HE Hb Hle) as [Hinf | [m [e [Hx Hval]]]];
          fold x0 in Hinf || fold x0 in Hx.
        -- left. now rewrite Hinf.
        -- right. rewrite Hx. cbn [with_sign SFfinite SFval cond_Zopp]. split; [reflexivity | exact Hval].
      * destruct (bra_shape M E HEU HE) as [Hx | [Hx | [m [e Hx]]]];
          fold x0 in Hx; rewrite Hx; cbn [with_sign].
        -- right. split; [reflexivity | simpl; lia].
        -- now left.
        -- right. split; [reflexivity |]. cbn [SFval cond_Zopp].
           assert (0 <= grid_val (Zpos m) e); [| lia].
           unfold grid_val. apply Z.mul_nonneg_nonneg; [lia | apply Z.pow_nonneg; lia].
  - intros Hnonneg Hfin Hlt. destruct s; cbn [cond_Zopp] in Hnonneg, Hlt; [lia |].
    destruct (bra_shape M E HEU HE) as [Hx | [Hx | [m [e Hx]]]];
      fold x0 in Hx; rewrite Hx in Hfin, Hlt |- *; cbn [with_sign] in *.
    + simpl in Hlt. lia.
    + discriminate Hfin.
    + cbn [SFval cond_Zopp] in Hlt. exists m, e. split; [reflexivity |].
      apply (bra_up_normal M m E e HE1 HE Hx Hlt).
  - intros Hnonpos Hfin Hlt. destruct s; cbn [cond_Zopp] in Hnonpos, Hlt; [| lia].
    destruct (bra_shape M E HEU HE) as [Hx | [Hx | [m [e Hx]]]];
      fold x0 in Hx; rewrite Hx in Hfin, Hlt |- *; cbn [with_sign] in *.
    + simpl in Hlt. lia.
    + discriminate Hfin.
    + cbn [SFval cond_Zopp] in Hlt. exists m, e. split; [reflexivity |].
      apply (bra_up_normal M m E e HE1 HE Hx). lia.
Qed.

Lemma normalize_rounding (Zs ez : Z) :
  -1074 <= ez ->
  is_rounding (Zs * 2 ^ (ez + grid)) (binary_normalize prec emax Zs ez false).
Proof.
  intros Hez. unfold binary_normalize. destruct Zs as [| p | p].
  - apply is_rounding_exact; reflexivity.
  - destruct (binary_round_spec false p ez Hez) as [M' [E' [-> [Hval [HE1 HE]]]]].
    change (Zpos p * 2 ^ (ez + grid)) with (cond_Zopp false (grid_val (Zpos p) ez)).
    rewrite <- Hval. now apply bra_rounding.
  - destruct (binary_round_spec true p ez Hez) as [M' [E' [-> [Hval [HE1 HE]]]]].
    replace (Zneg p * 2 ^ (ez + grid)) with (cond_Zopp true (grid_val (Zpos p) ez))
      by (unfold grid_val; cbn [cond_Zopp]; lia).
    rewrite <- Hval. now apply bra_rounding.
Qed.

Lemma aligned_val (s : bool) (m : positive) (e ez : Z) :
  ez <= e -> -1074 <= ez ->
  cond_Zopp s (Zpos (fst (shl_align m e ez))) * 2 ^ (ez + grid)
  = cond_Zopp s (grid_val (Zpos m) e).
Proof.
  intros Hle Hez. pose proof grid_eq.
  destruct (shl_align_spec m e ez Hle) as [m' [-> [Hval _]]]. cbn [fst].
  assert (Heq : Zpos m' * 2 ^ (ez + grid) = grid_val (Zpos m) e).
  { unfold grid_val. rewrite Hval, <- Z.mul_assoc, <- Z.pow_add_r by lia.
    do 2 f_equal; lia. }
  destruct s; cbn [cond_Zopp]; lia.
Qed.

Lemma SFsub_rounding (x y : spec_float) :
  valid_binary x = true -> valid_binary y = true ->
  SFfinite x = true -> SFfinite y = true ->
  is_rounding (SFval x - SFval y) (SFsub prec emax x y).
Proof.
  intros Hx Hy Hfx Hfy.
  destruct x as [sx | sx | | sx mx ex]; try discriminate Hfx;
    destruct y as [sy | sy | | sy my ey]; try discriminate Hfy.
  - apply is_rounding_exact; destruct sx, sy; reflexivity.
  - apply is_rounding_exact; [reflexivity |].
    cbn [SFsub SFval]. destruct sy; cbn [negb cond_Zopp]; lia.
  - apply is_rounding_exact; [reflexivity |]. cbn [SFsub SFval]. lia.
  - cbn [SFsub SFval]. simpl in Hx, Hy.
    pose proof (bounded_facts mx ex Hx) as [Hex _].
    pose proof (bounded_facts my ey Hy) as [Hey _].
    rewrite <- (aligned_val sx mx ex (Z.min ex ey)) by lia.
    rewrite <- (aligned_val sy my ey (Z.min ex ey)) by lia.
    rewrite <- Z.mul_sub_distr_r.
    apply normalize_rounding. lia.
Qed.

Lemma SFadd_rounding (x y : spec_float) :
  valid_binary x = true -> valid_binary y = true ->
  SFfinite x = true -> SFfinite y = true ->
  is_rounding (SFval x + SFval y) (SFadd prec emax x y).
Proof.
  intros Hx Hy Hfx Hfy.
  destruct x as [sx | sx | | sx mx ex]; try discriminate Hfx;
    destruct y as [sy | sy | | sy my ey]; try discriminate Hfy.
  - apply is_rounding_exact; destruct sx, sy; reflexivity.
  - apply is_rounding_exact; [reflexivity |]. cbn [SFadd SFval]. lia.
  - apply is_rounding_exact; [reflexivity |]. cbn [SFadd SFval]. lia.
  - cbn [SFadd SFval]. simpl in Hx, Hy.
    pose proof (bounded_facts mx ex Hx) as [Hex _].
    pose proof (bounded_facts my ey Hy) as [Hey _].
    rewrite <- (aligned_val sx mx ex (Z.min ex ey)) by lia.
    rewrite <- (aligned_val sy my ey (Z.min ex ey)) by lia.
    rewrite <- Z.mul_add_distr_r.
    apply normalize_rounding. lia.
Qed.

(** A valid float below one: its exponent is at most -53 and it is at most
    [1 - 2^-53]. *)
Lemma below_one (m : positive) (e : Z) :
  bounded prec emax m e = true ->
  grid_val (Zpos m) e < 2 ^ grid ->
  e <= -53 /\ grid_val (Zpos m) e + 2 ^ (grid - 53) <= 2 ^ grid.
Proof.
  intros Hb Hlt. pose proof grid_eq as HU.
  pose proof (bounded_facts m e Hb) as [He [Hm Hnorm]].
  assert (He53 : e <= -53).
  { destruct (Z.le_gt_cases e (-53)) as [| Hgt]; [assumption | exfalso].
    specialize (Hnorm ltac:(lia)).
    assert (H : 2 ^ grid <= 2 ^ 52 * 2 ^ (e + grid)).
    { rewrite <- Z.pow_add_r by lia. apply pow2_le. lia. }
    pose proof (pow2_pos (e + grid) ltac:(lia)). unfold grid_val in Hlt. nia. }
  split; [exact He53 |].
  pose proof (pow2_pos (e + grid) ltac:(lia)) as HK.
  destruct (Z.eq_dec e (-53)) as [-> | Hne].
  - unfold grid_val. replace (-53 + grid) with (grid - 53) by lia.
    assert (H : 2 ^ grid = 2 ^ 53 * 2 ^ (grid - 53)).
    { rewrite <- Z.pow_add_r by lia. f_equal; lia. }
    replace (-53 + grid) with (grid - 53) in HK by lia. nia.
  - assert (H1 : 2 ^ 53 * 2 ^ (e + grid) <= 2 ^ (grid - 1)).
    { rewrite <- Z.pow_add_r by lia. apply pow2_le. lia. }
    assert (H2 : 2 ^ (grid - 53) <= 2 ^ (grid - 1)) by (apply pow2_le; lia).
    assert (H3 : 2 ^ grid = 2 * 2 ^ (grid - 1)).
    { replace grid with (1 + (grid - 1)) at 1 by lia.
      rewrite Z.pow_add_r by lia. reflexivity. }
    unfold grid_val. nia.
Qed.

Lemma digits2_mul (m1 m2 : positive) :
  Zpos (digits2_pos m1) + Zpos (digits2_pos m2) - 1
  <= Zpos (digits2_pos (m1 * m2)).
Proof.
  pose proof (digits2_bounds m1) as [H1 _].
  pose proof (digits2_bounds m2) as [H2 _].
  pose proof (digits2_bounds (m1 * m2)) as [_ H3].
  set (d1 := Zpos (digits2_pos m1)) in *. set (d2 := Zpos (digits2_pos m2)) in *.
  set (d := Zpos (digits2_pos (m1 * m2))) in *.
  assert (0 < d1) by (unfold d1; lia). assert (0 < d2) by (unfold d2; lia).
  assert (0 < d) by (unfold d; lia).
  assert (Hprod : 2 ^ (d1 - 1 + (d2 - 1)) <= Zpos (m1 * m2)).
  { rewrite Z.pow_add_r, Pos2Z.inj_mul by lia.
    pose proof (pow2_pos (d1 - 1) ltac:(lia)).
    pose proof (pow2_pos (d2 - 1) ltac:(lia)). nia. }
  assert (d1 - 1 + (d2 - 1) < d); [| lia].
  apply (pow2_lt_inv _ _ (Zpos (m1 * m2))); lia.
Qed.

(** The product of a non-negative float with a float of [0, 1). *)
Lemma SFmul_below (x u : spec_float) :
  valid_binary x = true -> valid_binary u = true ->
  SFfinite x = true -> SFfinite u = true ->
  0 <= SFval x -> 0 <= SFval u -> SFval u < 2 ^ grid ->
  SFfinite (SFmul prec emax x u) = true
  /\ 0 <= SFval (SFmul prec emax x u)
  /\ SFval (SFmul prec emax x u) <= SFval x
  /\ (forall m e, x = S754_finite false m e -> -1074 < e -> 2 ^ 52 <= Zpos m ->
      SFval (SFmul prec emax x u) < SFval x).
Proof.
  intros Hx Hu Hfx Hfu Hx0 Hu0 Hu1. pose proof grid_eq as HU.
  destruct x as [sx | sx | | sx mx ex]; try discriminate Hfx;
    destruct u as [su | su | | su mu eu]; try discriminate Hfu;
    cbn [SFmul].
  1-3: cbn [SFfinite SFval] in *;
       (split; [reflexivity |]); (split; [lia |]); (split; [lia |]);
       intros m e Heq; try discriminate Heq; injection Heq as -> -> ->;
       intros He Hm; simpl in Hx; cbn [cond_Zopp];
       pose proof (bounded_facts m e Hx) as [Hex _];
       pose proof (val_pos (Zpos m) e ltac:(lia) ltac:(lia)); lia.
  simpl in Hx, Hu.
  pose proof (bounded_facts mx ex Hx) as [Hex [Hmx Hxnorm]].
  pose proof (bounded_facts mu eu Hu) as [Heu [Hmu _]].
  pose proof (val_pos (Zpos mx) ex ltac:(lia) ltac:(lia)) as Hxpos.
  pose proof (val_pos (Zpos mu) eu ltac:(lia) ltac:(lia)) as Hupos.
  destruct sx; cbn [SFval cond_Zopp] in Hx0; [lia |].
  destruct su; cbn [SFval cond_Zopp] in Hu0, Hu1; [lia |].
  cbn [xorb SFval cond_Zopp].
  destruct (below_one mu eu Hu Hu1) as [Heu53 Hule].
  set (M := (mx * mu)%positive). set (E := ex + eu).
  assert (HEU : - grid <= E) by (unfold E; lia).
  assert (HE : E <= fexp prec emax (Zpos (digits2_pos M) + E)).
  { rewrite fexp_eq. destruct (Z.le_gt_cases E (-1074)) as [| Hgt]; [lia |].
    specialize (Hxnorm ltac:(unfold E in Hgt; lia)).
    pose proof (digits2_mul mx mu) as Hd. fold M in Hd.
    pose proof (digits2_bounds mx) as [_ Hdx].
    assert (52 < Zpos (digits2_pos mx)).
    { apply (pow2_lt_inv _ _ (Zpos mx)); lia. }
    assert (0 < Zpos (digits2_pos mu)) by lia. lia. }
  (* the exact product, in the unit of the values *)
  assert (Hprod : grid_val (Zpos M) E * 2 ^ grid = grid_val (Zpos mx) ex * grid_val (Zpos mu) eu).
  { unfold grid_val, M, E. rewrite Pos2Z.inj_mul.
    replace (ex + eu + grid) with ((ex + grid) + eu) by lia.
    assert (H1 : 2 ^ (ex + grid + eu) * 2 ^ grid = 2 ^ (ex + grid) * 2 ^ (eu + grid)).
    { rewrite <- !Z.pow_add_r by lia. f_equal; lia. }
    nia. }
  pose proof (pow2_pos grid ltac:(lia)) as HU0.
  pose proof (val_pos (Zpos M) E ltac:(lia) ltac:(lia)) as HMpos.
  assert (Hle : grid_val (Zpos M) E <= grid_val (Zpos mx) ex) by nia.
  destruct (bra_le M mx E ex HEU HE Hx Hle) as [Hzero | [m [e [Hy Hval]]]].
  - rewrite Hzero. cbn [SFfinite SFval]. repeat split; try lia.
  - rewrite Hy. cbn [SFfinite SFval cond_Zopp].
    split; [reflexivity |]. split.
    { unfold grid_val. apply Z.mul_nonneg_nonneg; [lia | apply Z.pow_nonneg; lia]. }
    split; [exact Hval |].
    intros m' e' Heq He' Hm'. injection Heq as <- <-.
    assert (Hfine : grid_val (Zpos M) E + Zpos mx * 2 ^ (ex - 53 + grid)
                    <= grid_val (Zpos mx) ex).
    { assert (H1 : Zpos mx * 2 ^ (ex - 53 + grid) * 2 ^ grid
                   = grid_val (Zpos mx) ex * 2 ^ (grid - 53)).
      { unfold grid_val. rewrite <- !Z.mul_assoc, <- !Z.pow_add_r by lia.
        do 2 f_equal; lia. }
      nia. }
    destruct (bra_lt_normal M mx E ex HEU HE Hx Hm' He' Hfine)
      as [Hzero | [m'' [e'' [Hy' Hlt]]]]; [congruence |].
    rewrite Hy in Hy'. injection Hy' as <- <-. exact Hlt.
Qed.

Lemma SFleb_val (f g : spec_float) :
  valid_binary f = true -> valid_binary g = true ->
  SFfinite f = true -> SFfinite g = true ->
  SFleb f g = (SFval f <=? SFval g).
Proof.
  intros Hf Hg Hff Hfg. unfold SFleb, Z.leb.
  rewrite (SFcompare_val f g Hf Hg Hff Hfg).
  destruct (SFval f ?= SFval g); reflexivity.
Qed.

Lemma SFltb_val (f g : spec_float) :
  valid_binary f = true -> valid_binary g = true ->
  SFfinite f = true -> SFfinite g = true ->
  SFltb f g = (SFval f <? SFval g).
Proof.
  intros Hf Hg Hff Hfg. unfold SFltb, Z.ltb.
  rewrite (SFcompare_val f g Hf Hg Hff Hfg).
  destruct (SFval f ?= SFval g); reflexivity.
Qed.


Lemma SFval_one : SFval SFone = 2 ^ grid.
Proof.
  pose proof grid_eq. unfold SFone, SFval, grid_val. cbn [cond_Zopp].
  change (Zpos 4503599627370496) with (2 ^ 52).
  rewrite <- Z.pow_add_r by lia. f_equal; lia.
Qed.

Lemma SFsub_finite (x y : spec_float) :
  SFfinite (SFsub prec emax x y) = true ->
  SFfinite x = true /\ SFfinite y = true.
Proof.
  destruct x as [[] | [] | | sx mx ex]; destruct y as [[] | [] | | sy my ey];
    cbn [SFsub SFfinite negb]; intros H; try discriminate H;
    split; reflexivity.
Qed.

Lemma unit_interval_val (u : spec_float) :
  valid_binary u = true ->
  SFleb (S754_zero false) u = true -> SFltb u SFone = true ->
  SFfinite u = true /\ 0 <= SFval u /\ SFval u < 2 ^ grid.
Proof.
  intros Hu H0 H1.
  assert (Hfin : SFfinite u = true).
  { destruct u as [s | s | | s m e]; try reflexivity.
    - destruct s; [discriminate H0 | discriminate H1].
    - discriminate H0. }
  split; [exact Hfin |].
  rewrite SFleb_val in H0 by (try reflexivity; assumption).
  rewrite SFltb_val in H1 by (try reflexivity; assumption).
  rewrite SFval_one in H1. cbn [SFval] in H0. lia.
Qed.


Lemma is_finite_SF (x : float) :
  is_finite x = true -> SFfinite (Prim2SF x) = true.
Proof.
  unfold is_finite, is_nan, is_infinity.
  rewrite !FloatAxioms.eqb_spec, FloatAxioms.abs_spec.
  replace (Prim2SF infinity) with (S754_infinity false) by reflexivity.
  destruct (Prim2SF x) as [s | s | | s m e]; try reflexivity.
  - cbn. rewrite Bool.orb_true_r. discriminate.
  - cbn. discriminate.
Qed.


(** ** The reversed window

    Changing the sign of a factor changes the sign of the product and
    nothing else, so a non-positive width is the mirror image of a
    non-negative one. *)

Lemma SFopp_facts (x : spec_float) :
  SFval (SFopp x) = - SFval x
  /\ SFfinite (SFopp x) = SFfinite x
  /\ valid_binary (SFopp x) = valid_binary x.
Proof.
  destruct x as [s | s | | s m e]; cbn [SFopp SFval SFfinite valid_binary];
    repeat split.
  destruct s; cbn [negb cond_Zopp]; lia.
Qed.

Lemma with_sign_opp (s : bool) (x : spec_float) :
  SFopp (with_sign s x) = with_sign (negb s) x.
Proof. destruct x; reflexivity. Qed.

Lemma SFmul_opp (x u : spec_float) :
  SFfinite x = true -> SFfinite u = true ->
  SFmul prec emax (SFopp x) u = SFopp (SFmul prec emax x u).
Proof.
  intros Hfx Hfu.
  destruct x as [sx | sx | | sx mx ex]; try discriminate Hfx;
    destruct u as [su | su | | su mu eu]; try discriminate Hfu;
    cbn [SFmul SFopp]; try (destruct sx, su; reflexivity).
  rewrite (bra_sign (xorb (negb sx) su)), (bra_sign (xorb sx su)), with_sign_opp.
  now destruct sx, su.
Qed.

(** The product of a non-positive float with a float of [0, 1). *)
Lemma SFmul_above (x u : spec_float) :
  valid_binary x = true -> valid_binary u = true ->
  SFfinite x = true -> SFfinite u = true ->
  SFval x <= 0 -> 0 <= SFval u -> SFval u < 2 ^ grid ->
  SFfinite (SFmul prec emax x u) = true
  /\ SFval (SFmul prec emax x u) <= 0
  /\ SFval x <= SFval (SFmul prec emax x u)
  /\ (forall m e, x = S754_finite true m e -> -1074 < e -> 2 ^ 52 <= Zpos m ->
      SFval x < SFval (SFmul prec emax x u)).
Proof.
  intros Hx Hu Hfx Hfu Hx0 Hu0 Hu1.
  destruct (SFopp_facts x) as [Hval [Hfin Hvalid]].
  destruct (SFmul_below (SFopp x) u) as [HfY [HY0 [HYX HYlt]]];
    try assumption; try congruence; try lia.
  rewrite (SFmul_opp x u Hfx Hfu) in HfY, HY0, HYX, HYlt.
  destruct (SFopp_facts (SFmul prec emax x u)) as [Hval' [Hfin' _]].
  rewrite Hval' in HY0, HYX, HYlt. rewrite Hfin' in HfY.
  split; [exact HfY |]. split; [lia |]. split; [lia |].
  intros m e -> He Hm. specialize (HYlt m e eq_refl He Hm). lia.
Qed.

(** The draw at the level of values, for a window given upper bound first. *)
Lemma uniform_val_reversed (A B U0 : spec_float) :
  valid_binary A = true -> valid_binary B = true -> valid_binary U0 = true ->
  valid_binary (SFsub prec emax B A) = true ->
  valid_binary (SFmul prec emax (SFsub prec emax B A) U0) = true ->
  SFleb B A = true ->
  SFfinite (SFsub prec emax B A) = true ->
  SFleb (S754_zero false) U0 = true -> SFltb U0 SFone = true ->
  SFfinite A = true /\ SFfinite B = true
  /\ SFfinite (SFadd prec emax A (SFmul prec emax (SFsub prec emax B A) U0))
     = true
  /\ SFval B
     <= SFval (SFadd prec emax A (SFmul prec emax (SFsub prec emax B A) U0))
  /\ SFval (SFadd prec emax A (SFmul prec emax (SFsub prec emax B A) U0))
     <= SFval A.
Proof.
  intros HA HB HU HX HY Hba HfX Hu0 Hu1.
  destruct (SFsub_finite B A HfX) as [HfB HfA].
  destruct (unit_interval_val U0 HU Hu0 Hu1) as [HfU [HU0 HU1]].
  rewrite SFleb_val in Hba by assumption. apply Z.leb_le in Hba.
  pose proof (SFsub_rounding B A HB HA HfB HfA) as [HX1 [HX2 [_ HX4]]].
  set (X := SFsub prec emax B A) in *.
  assert (HX0 : SFval X <= 0).
  { destruct (HX1 (S754_zero false) eq_refl eq_refl) as [Hinf | [_ H]];
      [cbn [SFval]; lia | | exact H].
    rewrite Hinf in HfX. discriminate HfX. }
  destruct (SFmul_above X U0 HX HU HfX HfU HX0 HU0 HU1)
    as [HfY [HY0 [HYX HYlt]]].
  set (Y := SFmul prec emax X U0) in *.
  assert (HYD : SFval B - SFval A <= SFval Y).
  { destruct (Z.le_gt_cases (SFval B - SFval A) (SFval X)) as [| Hgt]; [lia |].
    destruct (HX4 ltac:(lia) HfX ltac:(lia)) as [m [e [HXeq [He Hm]]]].
    specialize (HYlt m e HXeq He Hm).
    destruct (Z.le_gt_cases (SFval B - SFval A) (SFval Y)) as [| Hgt'];
      [assumption |].
    destruct (HX2 Y HY HfY ltac:(lia)) as [Hinf | [_ H]]; [| lia].
    rewrite Hinf in HfX. discriminate HfX. }
  pose proof (SFadd_rounding A Y HA HY HfA HfY) as [HD1 [HD2 _]].
  set (Dl := SFadd prec emax A Y) in *.
  split; [exact HfA |]. split; [exact HfB |].
  destruct (HD2 B HB HfB ltac:(lia)) as [Hinf | [HfD HBD]].
  - destruct (HD1 A HA HfA ltac:(lia)) as [Hinf' | [HfD _]].
    + rewrite Hinf in Hinf'. discriminate Hinf'.
    + rewrite Hinf in HfD. discriminate HfD.
  - destruct (HD1 A HA HfA ltac:(lia)) as [Hinf' | [_ HDA]].
    + rewrite Hinf' in HfD. discriminate HfD.
    + repeat split; assumption.
Qed.

Lemma random_uniform_in_reversed_window (a b u : float) :
  (b <=? a)%float = true -> is_finite (b - a) = true ->
  (0 <=? u)%float = true -> (u <? 1)%float = true ->
  (b <=? random_uniform a b u)%float = true
  /\ (random_uniform a b u <=? a)%float = true.
Proof.
  intros Hba Hfin Hu0 Hu1. unfold random_uniform.
  rewrite FloatAxioms.leb_spec in Hba, Hu0. rewrite FloatAxioms.ltb_spec in Hu1.
  apply is_finite_SF in Hfin. rewrite FloatAxioms.sub_spec in Hfin.
  replace (Prim2SF 0) with (S754_zero false) in Hu0 by reflexivity.
  replace (Prim2SF 1) with SFone in Hu1 by reflexivity.
  pose proof (Prim2SF_valid a) as HA. pose proof (Prim2SF_valid b) as HB.
  pose proof (Prim2SF_valid u) as HU.
  pose proof (Prim2SF_valid (b - a)) as HX. rewrite FloatAxioms.sub_spec in HX.
  pose proof (Prim2SF_valid ((b - a) * u)) as HY.
  rewrite FloatAxioms.mul_spec, FloatAxioms.sub_spec in HY.
  pose proof (Prim2SF_valid (a + (b - a) * u)) as HD.
  rewrite FloatAxioms.add_spec, FloatAxioms.mul_spec, FloatAxioms.sub_spec in HD.
  destruct (uniform_val_reversed _ _ _ HA HB HU HX HY Hba Hfin Hu0 Hu1)
    as [HfA [HfB [HfD [H1 H2]]]].
  rewrite !FloatAxioms.leb_spec, FloatAxioms.add_spec, FloatAxioms.mul_spec,
    FloatAxioms.sub_spec.
  rewrite !SFleb_val by assumption.
  split; apply Z.leb_le; assumption.
Qed.

End Binary64.

(** * Properties *)

(** ** The trace-and-outcome monad *)

Lemma trace_bind {E A B} (m : M E A) (k : A -> M E B) :
  trace (bind m k) =
  trace m ++ match outcome m with
             | inr a => trace (k a)
             | inl _ => []
             end.
Proof.
  destruct m as [t [e | a]]; simpl.
  - now rewrite app_nil_r.
  - now destruct (k a).
Qed.

Lemma outcome_bind {E A B} (m : M E A) (k : A -> M E B) :
  outcome (bind m k) =
  match outcome m with
  | inr a => outcome (k a)
  | inl e => inl e
  end.
Proof.
  destruct m as [t [e | a]]; simpl; [reflexivity | now destruct (k a)].
Qed.

Lemma trace_lift {E F A} (f : E -> F) (m : M E A) :
  trace (lift f m) = map f (trace m).
Proof. reflexivity. Qed.

Lemma outcome_lift {E F A} (f : E -> F) (m : M E A) :
  outcome (lift f m) = outcome m.
Proof. reflexivity. Qed.



Lemma sleeps_app (t1 t2 : list Event) :
  sleeps (t1 ++ t2) = sleeps t1 ++ sleeps t2.
Proof.
  induction t1 as [| e t1 IH]; simpl; [reflexivity |].
  destruct e; simpl; now rewrite ?IH.
Qed.

Lemma sleeps_logged (ls : list LogLine) : sleeps (map Logged ls) = [].
Proof. induction ls as [| l ls IH]; simpl; auto. Qed.

(** A callback invocation is the call event followed by the callback's own
    log lines. *)
Lemma trace_call slot callback status res :
  trace (call slot callback status res) =
  Called slot status res :: map Logged (trace (callback status res)).
Proof. unfold call. rewrite trace_bind. reflexivity. Qed.

Lemma outcome_call slot callback status res :
  outcome (call slot callback status res) = outcome (callback status res).
Proof. unfold call. rewrite outcome_bind. reflexivity. Qed.

(** ** Outcome classifier *)

Lemma reason_text_injective (c1 c2 : Category) :
  reason_text c1 = reason_text c2 -> c1 = c2.
Proof.
  destruct c1, c2; simpl; intros H; solve [reflexivity | discriminate H].
Qed.

Lemma on_fail_error_classify (status : ExchangeStatus) :
  on_fail_error status = reason_text (classify status).
Proof.
  destruct status as [f1 f2 f3 f4 f5 f6 f7 f8 f9].
  unfold on_fail_error, classify; simpl.
  destruct f1; [reflexivity |].
  destruct f2; [reflexivity |].
  destruct f3; [reflexivity |].
  destruct f4; [reflexivity |].
  destruct f5; [reflexivity |].
  destruct f6; [reflexivity |].
  destruct f7; [reflexivity |].
  destruct f8; [reflexivity |].
  destruct f9; reflexivity.
Qed.

(** What [find] gives on a list split at its first match. *)
Lemma find_first_match {A} (f : A -> bool) (before after : list A) (x : A) :
  (forall y, In y before -> f y = false) ->
  f x = true ->
  find f (before ++ x :: after) = Some x.
Proof.
  intros Hbefore Hx.
  induction before as [| y before IH]; simpl.
  - now rewrite Hx.
  - rewrite (Hbefore y (or_introl eq_refl)).
    apply IH. intros z Hz. apply Hbefore. now right.
Qed.

Lemma find_no_match {A} (f : A -> bool) (l : list A) :
  (forall y, In y l -> f y = false) -> find f l = None.
Proof.
  intros H. induction l as [| y l IH]; simpl; [reflexivity |].
  rewrite (H y (or_introl eq_refl)). apply IH.
  intros z Hz. apply H. now right.
Qed.

(** [classify] names the earliest flag that is set. *)
Lemma classify_earliest (status : ExchangeStatus) (before after : list Category)
  (c : Category) :
  priority_order = before ++ c :: after ->
  (forall c', In c' before -> flag_of c' status = false) ->
  flag_of c status = true ->
  classify status = c.
Proof.
  intros Hsplit Hbefore Hc. unfold classify. rewrite Hsplit.
  now rewrite (find_first_match _ before after c Hbefore Hc).
Qed.

Lemma classify_none_set (status : ExchangeStatus) :
  (forall c, In c priority_order -> flag_of c status = false) ->
  classify status = category_unknown.
Proof.
  intros H. unfold classify. now rewrite (find_no_match _ _ H).
Qed.

(** C3: for every status the flag chain of [_on_fail] yields the reason of
    exactly one category, the one [classify] finds by first match in the
    fixed priority order: the category of the earliest set flag, and
    [unknown] when no flag is set. *)
Theorem classifier_first_match (status : ExchangeStatus) :
  on_fail_error status = reason_text (classify status)
  /\ (forall c, reason_text c = on_fail_error status -> c = classify status)
  /\ (forall before c after,
        priority_order = before ++ c :: after ->
        (forall c', In c' before -> flag_of c' status = false) ->
        flag_of c status = true ->
        on_fail_error status = reason_text c)
  /\ ((forall c, In c priority_order -> flag_of c status = false) ->
      on_fail_error status = reason_text category_unknown).
Proof.
  repeat split.
  - apply on_fail_error_classify.
  - intros c Hc. apply reason_text_injective.
    now rewrite Hc, on_fail_error_classify.
  - intros before c after Hsplit Hbefore Hc.
    rewrite on_fail_error_classify.
    now rewrite (classify_earliest status before after c Hsplit Hbefore Hc).
  - intros H. rewrite on_fail_error_classify.
    now rewrite (classify_none_set status H).
Qed.

(** ** Dispatch unit *)

(** A dispatch whose exchange call returns: the whole run. *)
Lemma exchange_begin_returned w p on_success on_fail status res :
  good_exchange w p = inr (status, res) ->
  exchange_begin w p on_success on_fail =
  ([Logged (trigger_line p); Slept (jitter w); Requested p;
    Logged (sent_line p); Called (routed_slot res) status res]
     ++ map Logged (trace (routed_callback res on_success on_fail status res)),
   outcome (routed_callback res on_success on_fail status res)).
Proof.
  intros Hreply.
  unfold exchange_begin, jitter, await_good_exchange, routed_callback, routed_slot.
  destruct (exchange_latency (preference (conf w))) as [random_x random_y].
  rewrite Hreply. cbn [fst snd].
  destruct res as [r |]; [destruct (result r) eqn:Hr |];
    unfold call; cbn; rewrite ?Hr; cbn.
  - destruct (on_success status (Some r)) as [t [e | []]]; reflexivity.
  - destruct (on_fail status (Some r)) as [t [e | []]]; reflexivity.
  - destruct (on_fail status None) as [t [e | []]]; reflexivity.
Qed.

(** A dispatch whose exchange call raises: no callback runs. *)
Lemma exchange_begin_raised w p on_success on_fail e :
  good_exchange w p = inl e ->
  exchange_begin w p on_success on_fail =
  ([Logged (trigger_line p); Slept (jitter w); Requested p], inl e).
Proof.
  intros Hreply.
  unfold exchange_begin, jitter, await_good_exchange.
  destruct (exchange_latency (preference (conf w))) as [random_x random_y].
  rewrite Hreply. reflexivity.
Qed.

Lemma routed_slot_success (res : option ExchangeResult) :
  routed_slot res = on_success_slot <-> exists r, res = Some r /\ result r = true.
Proof.
  unfold routed_slot. split.
  - destruct res as [r |]; [| discriminate].
    destruct (result r) eqn:Hr; [| discriminate]. intros _. now exists r.
  - intros [r [-> Hr]]. now rewrite Hr.
Qed.


(** C2: with a missing result the failure callbacks do not complete: the
    dispatch hands [(status, None)] to [on_fail], once, and [_on_fail] as
    well as the headless driver's [on_fail] raise AttributeError on
    [result.plan] before they log anything, for every status. *)
Theorem on_fail_raises_on_missing_result (status : ExchangeStatus) :
  _on_fail status None = ([], inl AttributeError)
  /\ Simple.on_fail status None = ([], inl AttributeError)
  /\ forall w p on_success,
       invocations (trace (exchange_begin (replying w (inr (status, None))) p
                             on_success _on_fail))
         = [(on_fail_slot, status, None)]
       /\ outcome (exchange_begin (replying w (inr (status, None))) p
                     on_success _on_fail)
         = inl AttributeError.
Proof.
  split; [reflexivity | split; [reflexivity |]].
  intros w p on_success.
  rewrite (exchange_begin_returned (replying w (inr (status, None))) p
             on_success _on_fail status None eq_refl).
  split; reflexivity.
Qed.

Lemma sleeps_exchange_begin w p on_success on_fail :
  sleeps (trace (exchange_begin w p on_success on_fail)) = [jitter w].
Proof.
  destruct (good_exchange w p) as [e | [status res]] eqn:Hreply.
  - now rewrite (exchange_begin_raised _ _ _ _ _ Hreply).
  - rewrite (exchange_begin_returned _ _ _ _ _ _ Hreply). unfold trace; cbn [fst].
    rewrite sleeps_app, sleeps_logged. reflexivity.
Qed.


(** C10: whenever a dispatch invokes [on_success], the result it passes is
    present and its flag is true; the success callback of the headless
    driver, which reads [result.plan], then completes. *)
Theorem on_success_receives_present_result w p on_success on_fail status res :
  In (Called on_success_slot status res)
     (trace (exchange_begin w p on_success on_fail)) ->
  exists r, res = Some r /\ result r = true
            /\ outcome (Simple.on_success status res) = inr tt.
Proof.
  intros Hin.
  destruct (good_exchange w p) as [e | [status' res']] eqn:Hreply.
  - rewrite (exchange_begin_raised _ _ _ _ _ Hreply) in Hin.
    cbn in Hin. intuition discriminate.
  - rewrite (exchange_begin_returned _ _ _ _ _ _ Hreply) in Hin.
    unfold trace in Hin; cbn [fst] in Hin.
    apply in_app_or in Hin. destruct Hin as [Hin | Hin].
    + cbn in Hin.
      destruct Hin as [H | [H | [H | [H | [H | []]]]]]; try discriminate H.
      injection H as Hslot -> ->.
      apply routed_slot_success in Hslot. destruct Hslot as [r [-> Hr]].
      exists r. repeat split; auto.
    + apply in_map_iff in Hin. destruct Hin as [l [Hl _]]. discriminate Hl.
Qed.

(** ** Connectivity prober *)

Lemma round_half_even_near (q : Q) :
  (Qabs (inject_Z (round_half_even q) - q) <= 1 # 2)%Q.
Proof.
  unfold round_half_even.
  pose proof (Qfloor_le q) as Hlo.
  pose proof (Qlt_floor q) as Hhi.
  rewrite inject_Z_plus in Hhi.
  apply Qabs_Qle_condition.
  destruct ((q - inject_Z (Qfloor q)) ?= (1 # 2))%Q eqn:Hcmp.
  - apply Qeq_alt in Hcmp.
    destruct (Z.even (Qfloor q)); rewrite ?inject_Z_plus;
      change (inject_Z 1) with 1%Q in *; split; lra.
  - apply Qlt_alt in Hcmp. split; lra.
  - apply Qgt_alt in Hcmp. rewrite inject_Z_plus.
    change (inject_Z 1) with 1%Q in *. split; lra.
Qed.

(** [round(x, 2)] has two decimals and is within half a hundredth of [x]. *)
Lemma py_round_two_decimals (x : Q) :
  exists n : Z, (py_round x 2 == n # 100)%Q
                /\ (Qabs (py_round x 2 - x) <= 1 # 200)%Q.
Proof.
  exists (round_half_even (x * inject_Z 100)).
  unfold py_round. change (10 ^ Z.of_nat 2)%Z with 100%Z.
  set (n := round_half_even (x * inject_Z 100)).
  assert (Hdiv : (inject_Z n / inject_Z 100 == n # 100)%Q)
    by (symmetry; apply Qmake_Qdiv).
  split; [exact Hdiv |].
  pose proof (round_half_even_near (x * inject_Z 100)) as Hnear.
  fold n in Hnear.
  apply Qabs_Qle_condition in Hnear. destruct Hnear as [Hlo Hhi].
  apply Qabs_Qle_condition.
  change (inject_Z 100) with 100%Q in *.
  assert (Hscaled : (inject_Z n / 100 * 100 == inject_Z n)%Q) by (field; discriminate).
  set (y := (inject_Z n / 100)%Q) in *.
  split; lra.
Qed.

Section SchedulingProperties.

Variable datetime : Type.
Variable fromtimestamp : Z -> Exn + datetime.
Variable localize : string -> datetime -> Z.
Variable Preference_timezone : Exn + string.
Variable Preference_connection_test_interval : Exn + Q.
Variable hostname : string.

(** C8, as the code has it: for each value that the ping returns the
    prober completes and writes exactly one line, at level INFO, that tells
    a reader one of three things: timed out (ping gave [None]), failed
    (ping gave [False]), or succeeded with the delay in milliseconds
    rounded to two decimals.  When the call of the ping raises, the prober
    raises the same exception and writes nothing. *)
Theorem connection_test_one_observation (w : World) :
  (forall r, ping w = inr r ->
     exists line,
       _connection_test hostname w = ([line], inr tt)
       /\ level line = INFO
       /\ observed line = Some (observation r))
  /\ (forall e, ping w = inl e -> _connection_test hostname w = ([], inl e))
  /\ forall ms, observation (PingDelay ms) = succeeded (py_round ms 2)
                /\ exists n : Z, (py_round ms 2 == n # 100)%Q
                                 /\ (Qabs (py_round ms 2 - ms) <= 1 # 200)%Q.
Proof.
  split; [| split].
  - intros r Hr. unfold _connection_test. rewrite Hr.
    destruct r as [| | ms]; eexists; repeat split.
  - intros e He. unfold _connection_test. now rewrite He.
  - intros ms. split; [reflexivity | apply py_round_two_decimals].
Qed.

(** ** Scheduler *)

(** The loop over the plans, when every plan has a release timestamp that
    converts: it completes and appends one date job per plan, in order. *)
Lemma add_plan_jobs_complete (plans : list ExchangePlan) on_success on_fail :
  (forall p, In p plans -> convertible fromtimestamp p) ->
  forall s, exists added,
    add_plan_jobs fromtimestamp plans on_success on_fail s
      = ([], inr {| scheduler_timezone := scheduler_timezone s;
                    jobs := jobs s ++ added |})
    /\ date_jobs added = added
    /\ Forall2 (fun p j => exists ts d,
                  time (good p) = Some ts /\ fromtimestamp ts = inr d
                  /\ j = DateJob d (p, on_success, on_fail))
               plans added.
Proof.
  induction plans as [| p plans IH]; intros Hconv s.
  - exists []. simpl. rewrite app_nil_r. destruct s. repeat split. constructor.
  - destruct (Hconv p (or_introl eq_refl)) as [ts [d [Hts Hd]]].
    destruct (IH (fun q Hq => Hconv q (or_intror Hq))
                 (add_job s (DateJob d (p, on_success, on_fail))))
      as [added [Hrun [Hdate Hall]]].
    exists (DateJob d (p, on_success, on_fail) :: added).
    simpl. rewrite Hts. simpl. rewrite Hd. rewrite Hrun. simpl.
    rewrite <- app_assoc. simpl.
    repeat split.
    + unfold date_jobs in *. simpl. now rewrite Hdate.
    + constructor; [now exists ts, d | exact Hall].
Qed.

(** A plan without a release timestamp stops the loop with a type error,
    when the plans before it convert. *)
Lemma add_plan_jobs_missing_timestamp (before after : list ExchangePlan)
  (p : ExchangePlan) on_success on_fail :
  (forall q, In q before -> convertible fromtimestamp q) ->
  time (good p) = None ->
  forall s, add_plan_jobs fromtimestamp (before ++ p :: after)
              on_success on_fail s
            = ([], inl TypeError).
Proof.
  induction before as [| q before IH]; intros Hconv Hnone s; simpl.
  - now rewrite Hnone.
  - destruct (Hconv q (or_introl eq_refl)) as [ts [d [Hts Hd]]].
    rewrite Hts. simpl. rewrite Hd.
    now rewrite (IH (fun r Hr => Hconv r (or_intror Hr)) Hnone).
Qed.

(** With the timezone set and the probe settings set, no class attribute is
    read, and [get_scheduler] is the loop over the plans on a scheduler
    that holds the timezone and the probe job. *)
Lemma get_scheduler_settings (c : Config) on_success on_fail (tz : string) :
  timezone_set c tz ->
  probe_set c ->
  get_scheduler fromtimestamp Preference_timezone
    Preference_connection_test_interval c on_success on_fail
  = bind (emit SchedulerCreated)
      (fun _ => add_plan_jobs fromtimestamp (exchange_plans c) on_success on_fail
                  {| scheduler_timezone := Some tz;
                     jobs := configured_probe c |}).
Proof.
  intros [Htz Hnonempty] Hprobe. unfold get_scheduler, configured_probe, or_str.
  rewrite Htz.
  destruct (String.eqb_spec tz ""); [contradiction |].
  destruct Hprobe as [Hoff | [q [Hq Hnonzero]]].
  - rewrite Hoff. simpl.
    destruct (add_plan_jobs fromtimestamp (exchange_plans c) on_success on_fail _)
      as [t [e | s']]; reflexivity.
  - unfold or_num. rewrite Hq.
    destruct (Qeq_bool q 0) eqn:Hzero;
      [apply Qeq_bool_iff in Hzero; contradiction |].
    destruct (enable_connection_test (preference c)); simpl;
      destruct (add_plan_jobs fromtimestamp (exchange_plans c) on_success on_fail _)
        as [t [e | s']]; reflexivity.
Qed.

Lemma date_jobs_app (t1 t2 : list (Job datetime)) :
  date_jobs (t1 ++ t2) = date_jobs t1 ++ date_jobs t2.
Proof. apply filter_app. Qed.

Lemma date_jobs_configured_probe (c : Config) :
  date_jobs (@configured_probe datetime c) = [].
Proof.
  unfold configured_probe.
  destruct (enable_connection_test (preference c)); [| reflexivity].
  now destruct (connection_test_interval (preference c)).
Qed.

(** C5, as the code has it: with a timezone configured, the probe either
    disabled or with an interval configured, and every plan with a release
    timestamp that converts, [get_scheduler] returns a scheduler with the
    configured timezone whose one-shot jobs are, plan by plan and in order,
    one job with the plan and the two callbacks as arguments; its run date
    is [datetime.fromtimestamp(plan.good.time)], the naive local date of
    the process, and the job fires at the instant that the scheduler's
    timezone gives to that naive date, which is the release timestamp only
    where the two zones agree. *)
Theorem get_scheduler_registers_plans (c : Config) on_success on_fail
  (tz : string) :
  timezone_set c tz ->
  probe_set c ->
  (forall p, In p (exchange_plans c) -> convertible fromtimestamp p) ->
  exists scheduler,
    get_scheduler fromtimestamp Preference_timezone
      Preference_connection_test_interval c on_success on_fail
      = ([SchedulerCreated], inr scheduler)
    /\ scheduler_timezone scheduler = Some tz
    /\ jobs scheduler = configured_probe c ++ date_jobs (jobs scheduler)
    /\ Forall2 (fun p j => exists ts d,
                  time (good p) = Some ts /\ fromtimestamp ts = inr d
                  /\ j = DateJob d (p, on_success, on_fail)
                  /\ trigger_time localize scheduler j = Some (localize tz d))
               (exchange_plans c) (date_jobs (jobs scheduler)).
Proof.
  intros Htz Hprobe Hconv.
  rewrite (get_scheduler_settings c on_success on_fail tz Htz Hprobe).
  destruct (add_plan_jobs_complete (exchange_plans c) on_success on_fail Hconv
              {| scheduler_timezone := Some tz; jobs := configured_probe c |})
    as [added [Hrun [Hdate Hall]]].
  rewrite Hrun. eexists. split; [reflexivity |]. cbn [scheduler_timezone jobs].
  rewrite date_jobs_app, date_jobs_configured_probe, Hdate. cbn [app].
  repeat split.
  apply Forall2_impl with (2 := Hall).
  intros p j [ts [d [Hts [Hd Hj]]]]. exists ts, d. subst j.
  repeat split; assumption.
Qed.

(** ** Runs of the scheduler *)

(** A dispatch reads of its world the latency window, the random number and
    the reply of the transport layer, and nothing else. *)
Lemma exchange_begin_reads w1 w2 p on_success on_fail :
  exchange_latency (preference (conf w1)) = exchange_latency (preference (conf w2)) ->
  random w1 = random w2 ->
  good_exchange w1 = good_exchange w2 ->
  exchange_begin w1 p on_success on_fail = exchange_begin w2 p on_success on_fail.
Proof.
  intros Hlatency Hrandom Hreply.
  unfold exchange_begin, await_good_exchange.
  now rewrite Hlatency, Hrandom, Hreply.
Qed.

Lemma connection_test_reads w1 w2 :
  ping w1 = ping w2 -> _connection_test hostname w1 = _connection_test hostname w2.
Proof. unfold _connection_test. now intros ->. Qed.

Lemma run_forever_reads (firings1 firings2 : list Firing) :
  Forall2 (fun f1 f2 => same_but_conf f1 f2 /\ same_latency f1 f2)
          firings1 firings2 ->
  forall table : list (Job datetime),
    run_forever hostname table firings1 = run_forever hostname table firings2.
Proof.
  induction 1 as [| f1 f2 rest1 rest2 [[Hfired [Hrandom [Hreply Hping]]] Hlatency] _ IH];
    intros table; simpl; [reflexivity |].
  rewrite <- Hfired.
  destruct (nth_error table (fired f1)) as [[seconds | run_date [[p s] f]] |].
  - now rewrite (connection_test_reads _ _ Hping), IH.
  - now rewrite (exchange_begin_reads _ _ p s f Hlatency Hrandom Hreply), IH.
  - apply IH.
Qed.

(** C6, as the code has it: two runs of a scheduler built from the same
    configuration and callbacks behave identically whenever their job runs
    agree on the random numbers, the replies of the transport layer, the
    ping outcomes and the latency window visible when each job runs; the
    rest of the configuration visible after the build (timezone, probe
    toggle and interval, plan list) has no influence. *)
Theorem runs_agree_up_to_latency_window (c : Config) on_success on_fail
  (firings1 firings2 : list Firing) :
  Forall2 (fun f1 f2 => same_but_conf f1 f2 /\ same_latency f1 f2)
          firings1 firings2 ->
  scheduler_run fromtimestamp Preference_timezone
    Preference_connection_test_interval hostname c on_success on_fail firings1
  = scheduler_run fromtimestamp Preference_timezone
      Preference_connection_test_interval hostname c on_success on_fail firings2.
Proof.
  intros Hsame. unfold scheduler_run.
  destruct (get_scheduler fromtimestamp Preference_timezone
              Preference_connection_test_interval c on_success on_fail)
    as [t [e | scheduler]]; simpl; [reflexivity |].
  now rewrite (run_forever_reads _ _ Hsame).
Qed.

(** ** Headless driver *)

(** C7: with an empty plan list the headless driver adds the log sink,
    logs that there is nothing to do and returns: no scheduler is created
    or started, no job runs and no callback is invoked, whatever the event
    loop would have done. *)
Theorem exchange_mode_simple_without_plans (c : Config)
  (firings : list Firing) (interrupt : bool) :
  exchange_plans c = [] ->
  exchange_mode_simple fromtimestamp Preference_timezone
    Preference_connection_test_interval hostname c firings interrupt
  = ([LoggerAdded;
      Logged {| level := INFO; message := [Text "无兑换计划需要执行"] |}],
     inr Returned)
  /\ ~ In SchedulerCreated
         (trace (exchange_mode_simple fromtimestamp Preference_timezone
                   Preference_connection_test_interval hostname c firings
                   interrupt))
  /\ ~ In SchedulerStarted
         (trace (exchange_mode_simple fromtimestamp Preference_timezone
                   Preference_connection_test_interval hostname c firings
                   interrupt))
  /\ invocations
       (trace (exchange_mode_simple fromtimestamp Preference_timezone
                 Preference_connection_test_interval hostname c firings
                 interrupt)) = [].
Proof.
  intros Hempty. unfold exchange_mode_simple. rewrite Hempty. cbn.
  repeat split; intros [H | [H | []]]; discriminate H.
Qed.

End SchedulingProperties.

(** ** Interactive view *)

(** C9: from the initial view, pressing enter and then exit posts
    EnterExchangeMode and then ExitExchangeMode and nothing else, and gives
    the initial view back: the enter button displayed, the exit button
    hidden, the warning text the one shown before entering.  In between the
    view is the armed one: enter hidden, exit displayed, the other text. *)
Theorem enter_then_exit_restores_view :
  press_enter_then_exit initial_view
    = (initial_view, [EnterExchangeMode; ExitExchangeMode])
  /\ display (button_enter initial_view) = BLOCK
  /\ display (button_exit initial_view) = NONE
  /\ render (warning_text initial_view) = ENTER_TEXT
  /\ snd (press_enter initial_view) = [EnterExchangeMode]
  /\ display (button_enter (fst (press_enter initial_view))) = NONE
  /\ display (button_exit (fst (press_enter initial_view))) = BLOCK
  /\ render (warning_text (fst (press_enter initial_view))) = EXIT_TEXT
  /\ ENTER_TEXT <> EXIT_TEXT.
Proof.
  repeat split; try reflexivity. discriminate.
Qed.

(** * Runs on concrete inputs *)

Example on_fail_error_two_flags :
  on_fail_error two_flags
  = "商品为游戏内物品，但 stoken 为 'v2' 类型同时 Cookies 缺少 mid".
Proof. reflexivity. Qed.

Example on_fail_error_no_flags : on_fail_error no_flags = "未知错误".
Proof. reflexivity. Qed.

Example on_fail_present_result :
  _on_fail two_flags (Some sample_success)
  = ([{| level := ERROR;
         message := [Text "用户 "; Text "10001"; Text " - "; Text "sample good";
                     Text " 兑换失败，原因：";
                     Text "商品为游戏内物品，但 stoken 为 'v2' 类型同时 Cookies 缺少 mid"] |}],
     inr tt).
Proof. reflexivity. Qed.

Example py_round_up : (py_round (123456 # 10000) 2 == 1235 # 100)%Q.
Proof. reflexivity. Qed.

Example py_round_tie_to_even : (py_round (1 # 8) 2 == 12 # 100)%Q.
Proof. reflexivity. Qed.

Example py_round_negative : (py_round (- (3 # 8)) 2 == - (38 # 100))%Q.
Proof. reflexivity. Qed.

Example connection_test_delay :
  _connection_test sample_hostname sample_world
  = ([{| level := INFO;
         message := [Text "Ping 商品兑换API服务器 "; Text "api.example.com";
                     Text " 延迟 "; Num (py_round (123456 # 10000) 2);
                     Text " ms"] |}],
     inr tt).
Proof. reflexivity. Qed.

Example exchange_begin_sample :
  invocations (trace (exchange_begin sample_world sample_plan
                        Simple.on_success Simple.on_fail))
  = [(on_success_slot, no_flags, Some sample_success)]
  /\ sleeps (trace (exchange_begin sample_world sample_plan
                      Simple.on_success Simple.on_fail)) = [0.125%float]
  /\ outcome (exchange_begin sample_world sample_plan
                Simple.on_success Simple.on_fail) = inr tt.
Proof. split; [reflexivity | split; reflexivity]. Qed.

(** The scheduler of the sample configuration. *)
Example get_scheduler_sample :
  get_scheduler sample_fromtimestamp sample_timezone sample_interval
    sample_conf Simple.on_success Simple.on_fail
  = ([SchedulerCreated], inr sample_scheduler).
Proof. reflexivity. Qed.

(** A headless run with one plan: the scheduler is built and started, the
    loop fires the date job, the interrupt shuts the scheduler down. *)
Example exchange_mode_simple_sample :
  let run := exchange_mode_simple sample_fromtimestamp sample_timezone
               sample_interval sample_hostname sample_conf sample_firings true in
  outcome run = inr Returned
  /\ invocations (trace run) = [(on_success_slot, no_flags, Some sample_success)]
  /\ hd_error (trace run) = Some LoggerAdded
  /\ In SchedulerCreated (trace run)
  /\ In SchedulerStarted (trace run)
  /\ In SchedulerShutdown (trace run).
Proof.
  cbv zeta. split; [reflexivity | split; [reflexivity | split; [reflexivity |]]].
  vm_compute. tauto.
Qed.

(** A plan without a release timestamp makes [get_scheduler] raise. *)
Example get_scheduler_missing_timestamp :
  get_scheduler sample_fromtimestamp sample_timezone sample_interval
    {| preference := sample_preference; exchange_plans := [untimed_plan] |}
    Simple.on_success Simple.on_fail
  = ([SchedulerCreated], inl TypeError).
Proof. reflexivity. Qed.

(** With the timezone of the configuration unset or empty [get_scheduler]
    evaluates [Preference.timezone], and with the connection test enabled
    and the interval unset or zero it evaluates
    [Preference.connection_test_interval]: the exception of that read ends
    the call, and no job is registered. *)
Example get_scheduler_unset_timezone :
  get_scheduler sample_fromtimestamp sample_timezone sample_interval
    empty_timezone_conf Simple.on_success Simple.on_fail
  = ([SchedulerCreated], inl AttributeError).
Proof. reflexivity. Qed.

Example get_scheduler_zero_interval :
  get_scheduler sample_fromtimestamp sample_timezone sample_interval
    zero_interval_conf Simple.on_success Simple.on_fail
  = ([SchedulerCreated], inl AttributeError).
Proof. reflexivity. Qed.

(** * Instances on the sample data *)

Lemma classifier_first_match_witness :
  priority_order
    = [category_network_error; category_missing_stoken]
        ++ category_missing_mid
        :: [category_missing_address; category_missing_game_uid;
            category_unsupported_game; category_failed_getting_game_record;
            category_init_required; category_account_not_found]
  /\ flag_of category_missing_mid two_flags = true
  /\ flag_of category_init_required two_flags = true
  /\ on_fail_error two_flags = reason_text category_missing_mid.
Proof.
  split; [reflexivity | split; [reflexivity | split; [reflexivity |]]].
  destruct (classifier_first_match two_flags) as [_ [_ [Hearliest _]]].
  apply (Hearliest [category_network_error; category_missing_stoken]
           category_missing_mid
           [category_missing_address; category_missing_game_uid;
            category_unsupported_game; category_failed_getting_game_record;
            category_init_required; category_account_not_found]).
  - reflexivity.
  - intros c' [<- | [<- | []]]; reflexivity.
  - reflexivity.
Defined.




Lemma on_success_receives_present_result_witness :
  In (Called on_success_slot no_flags (Some sample_success))
     (trace (exchange_begin sample_world sample_plan
               Simple.on_success Simple.on_fail))
  /\ exists r, Some sample_success = Some r /\ result r = true
               /\ outcome (Simple.on_success no_flags (Some sample_success))
                  = inr tt.
Proof.
  assert (Hin : In (Called on_success_slot no_flags (Some sample_success))
                   (trace (exchange_begin sample_world sample_plan
                             Simple.on_success Simple.on_fail)))
    by (simpl; tauto).
  split; [exact Hin |].
  apply (on_success_receives_present_result sample_world sample_plan
           Simple.on_success Simple.on_fail no_flags (Some sample_success) Hin).
Defined.

(** C5 on a process that runs in UTC with the timezone "Asia/Shanghai"
    configured: the plan is registered once, with its callbacks, and the
    job fires eight hours before the release timestamp of its plan. *)
Lemma get_scheduler_registers_plans_witness :
  timezone_set sample_conf "Asia/Shanghai"
  /\ probe_set sample_conf
  /\ (forall p, In p (exchange_plans sample_conf) ->
                convertible utc_fromtimestamp p)
  /\ time (good sample_plan) = Some 4102444800%Z
  /\ sample_localize "Asia/Shanghai" 4102444800%Z = 4102416000%Z
  /\ exists scheduler,
       get_scheduler utc_fromtimestamp sample_timezone sample_interval
         sample_conf Simple.on_success Simple.on_fail
         = ([SchedulerCreated], inr scheduler)
       /\ scheduler_timezone scheduler = Some "Asia/Shanghai"
       /\ jobs scheduler
          = configured_probe sample_conf ++ date_jobs (jobs scheduler)
       /\ Forall2 (fun p j => exists ts d,
                     time (good p) = Some ts /\ utc_fromtimestamp ts = inr d
                     /\ j = DateJob d (p, Simple.on_success, Simple.on_fail)
                     /\ trigger_time sample_localize scheduler j
                        = Some (sample_localize "Asia/Shanghai" d))
                  (exchange_plans sample_conf) (date_jobs (jobs scheduler)).
Proof.
  assert (Htz : timezone_set sample_conf "Asia/Shanghai")
    by (split; [reflexivity | discriminate]).
  assert (Hprobe : probe_set sample_conf)
    by (right; exists 30%Q; split; [reflexivity | discriminate]).
  assert (Hconv : forall p, In p (exchange_plans sample_conf) ->
                            convertible utc_fromtimestamp p).
  { intros p [<- | []]. exists 4102444800%Z, 4102444800%Z.
    split; reflexivity. }
  split; [exact Htz | split; [exact Hprobe | split; [exact Hconv |]]].
  split; [reflexivity | split; [reflexivity |]].
  exact (get_scheduler_registers_plans Z utc_fromtimestamp sample_localize
           sample_timezone sample_interval sample_conf Simple.on_success
           Simple.on_fail "Asia/Shanghai" Htz Hprobe Hconv).
Defined.

(** The same run, evaluated: the only one-shot job fires at 4102416000,
    and the release timestamp of its plan is 4102444800. *)
Example release_instant_shifted :
  exists scheduler,
    get_scheduler utc_fromtimestamp sample_timezone sample_interval
      sample_conf Simple.on_success Simple.on_fail
    = ([SchedulerCreated], inr scheduler)
    /\ map (trigger_time sample_localize scheduler) (date_jobs (jobs scheduler))
       = [Some 4102416000%Z]
    /\ map (fun p => time (good p)) (exchange_plans sample_conf)
       = [Some 4102444800%Z].
Proof. eexists. split; [reflexivity | split; reflexivity]. Qed.

Lemma exchange_mode_simple_without_plans_witness :
  exchange_plans empty_conf = []
  /\ exchange_mode_simple sample_fromtimestamp sample_timezone sample_interval
       sample_hostname empty_conf sample_firings true
     = ([LoggerAdded;
         Logged {| level := INFO; message := [Text "无兑换计划需要执行"] |}],
        inr Returned).
Proof.
  split; [reflexivity |].
  exact (proj1 (exchange_mode_simple_without_plans Z sample_fromtimestamp
                  sample_timezone sample_interval sample_hostname empty_conf
                  sample_firings true eq_refl)).
Defined.

(** Against C6 as stated: the two runs below share the configuration at
    build time, which sets the timezone and the interval, and differ only
    in the configuration visible when the job fires, and the dispatches
    sleep for different durations. *)
Lemma jitter_bounds_read_at_dispatch_time :
  Forall2 same_but_conf sample_firings later_latency_firings
  /\ sleeps (trace (scheduler_run sample_fromtimestamp sample_timezone
                      sample_interval sample_hostname sample_conf
                      Simple.on_success Simple.on_fail sample_firings))
     = [0.125%float]
  /\ sleeps (trace (scheduler_run sample_fromtimestamp sample_timezone
                      sample_interval sample_hostname sample_conf
                      Simple.on_success Simple.on_fail later_latency_firings))
     = [1%float]
  /\ (0.125 =? 1)%float = false
  /\ scheduler_run sample_fromtimestamp sample_timezone sample_interval
       sample_hostname sample_conf Simple.on_success Simple.on_fail
       sample_firings
     <> scheduler_run sample_fromtimestamp sample_timezone sample_interval
          sample_hostname sample_conf Simple.on_success Simple.on_fail
          later_latency_firings.
Proof.
  split; [| split; [| split; [| split]]].
  - repeat constructor.
  - reflexivity.
  - reflexivity.
  - reflexivity.
  - intros H.
    apply (f_equal (fun m => match sleeps (trace m) with
                             | d :: _ => (d =? 1)%float
                             | [] => false
                             end)) in H.
    vm_compute in H. discriminate H.
Defined.

Lemma runs_agree_up_to_latency_window_witness :
  Forall2 (fun f1 f2 => same_but_conf f1 f2 /\ same_latency f1 f2)
          sample_firings later_other_firings
  /\ conf (world (hd {| fired := 0; world := sample_world |} sample_firings))
     <> conf (world (hd {| fired := 0; world := sample_world |}
                        later_other_firings))
  /\ scheduler_run sample_fromtimestamp sample_timezone sample_interval
       sample_hostname sample_conf Simple.on_success Simple.on_fail
       sample_firings
     = scheduler_run sample_fromtimestamp sample_timezone sample_interval
         sample_hostname sample_conf Simple.on_success Simple.on_fail
         later_other_firings.
Proof.
  assert (Hsame : Forall2 (fun f1 f2 => same_but_conf f1 f2 /\ same_latency f1 f2)
                          sample_firings later_other_firings)
    by (repeat constructor).
  split; [exact Hsame | split; [discriminate |]].
  apply (runs_agree_up_to_latency_window Z sample_fromtimestamp sample_timezone
           sample_interval sample_hostname sample_conf Simple.on_success
           Simple.on_fail sample_firings later_other_firings Hsame).
Defined.

(** Against C8 as stated: when the call of the ping raises, the prober
    raises too, and writes no observation. *)
Lemma connection_test_raises_with_ping :
  ping unpingable_world = inl (OtherError "PermissionError")
  /\ _connection_test sample_hostname unpingable_world
     = ([], inl (OtherError "PermissionError")).
Proof. split; reflexivity. Defined.

(** * Further properties of the code *)

(** ** Dispatch unit *)



Lemma logs_app (t1 t2 : list Event) : logs (t1 ++ t2) = logs t1 ++ logs t2.
Proof.
  induction t1 as [| e t1 IH]; simpl; [reflexivity |].
  destruct e; simpl; now rewrite ?IH.
Qed.

Lemma logs_logged (ls : list LogLine) : logs (map Logged ls) = ls.
Proof. induction ls as [| l ls IH]; simpl; [| rewrite IH]; reflexivity. Qed.





(** X5: the callbacks of the headless driver never look at the status:
    two dispatches that differ only in the status the exchange call
    returned log the same lines and end the same way. *)
Theorem simple_dispatch_ignores_status w p (status1 status2 : ExchangeStatus)
  (res : option ExchangeResult) :
  logs (trace (exchange_begin (replying w (inr (status1, res))) p
                 Simple.on_success Simple.on_fail))
  = logs (trace (exchange_begin (replying w (inr (status2, res))) p
                   Simple.on_success Simple.on_fail))
  /\ outcome (exchange_begin (replying w (inr (status1, res))) p
                Simple.on_success Simple.on_fail)
     = outcome (exchange_begin (replying w (inr (status2, res))) p
                  Simple.on_success Simple.on_fail).
Proof.
  rewrite (exchange_begin_returned (replying w (inr (status1, res))) p
             Simple.on_success Simple.on_fail status1 res eq_refl).
  rewrite (exchange_begin_returned (replying w (inr (status2, res))) p
             Simple.on_success Simple.on_fail status2 res eq_refl).
  unfold trace, outcome; cbn [fst snd].
  rewrite !logs_app, !logs_logged.
  unfold routed_callback. destruct (routed_slot res); split; reflexivity.
Qed.

(** X6: with a result present [_on_fail] completes with one ERROR line, and
    for the same result two statuses give the same line exactly when they
    fall into the same category. *)
Theorem on_fail_line_tells_category (status1 status2 : ExchangeStatus)
  (r : ExchangeResult) :
  outcome (_on_fail status1 (Some r)) = inr tt
  /\ (exists line, trace (_on_fail status1 (Some r)) = [line]
                   /\ level line = ERROR)
  /\ (_on_fail status1 (Some r) = _on_fail status2 (Some r)
      <-> classify status1 = classify status2).
Proof.
  split; [reflexivity | split; [eexists; split; reflexivity |]].
  split.
  - intros H. apply reason_text_injective.
    rewrite <- !on_fail_error_classify.
    unfold _on_fail in H. cbn in H. congruence.
  - intros H. unfold _on_fail.
    now rewrite !on_fail_error_classify, H.
Qed.

(** X7: the latency window is not validated: when its first bound lies
    above the second and the width does not overflow, the dispatch still
    sleeps once, for a duration between the two bounds. *)
Theorem jitter_reversed_window w p on_success on_fail (a b : float) :
  exchange_latency (preference (conf w)) = (a, b) ->
  (b <=? a)%float = true ->
  is_finite (b - a)%float = true ->
  unit_interval (random w) ->
  exists d, sleeps (trace (exchange_begin w p on_success on_fail)) = [d]
            /\ (b <=? d)%float = true /\ (d <=? a)%float = true.
Proof.
  intros Hwindow Hba Hfin [Hu0 Hu1]. exists (jitter w). split.
  - apply sleeps_exchange_begin.
  - unfold jitter. rewrite Hwindow. cbn [fst snd].
    exact (random_uniform_in_reversed_window a b (random w) Hba Hfin Hu0 Hu1).
Qed.

Section MoreSchedulingProperties.

Variable datetime : Type.
Variable fromtimestamp : Z -> Exn + datetime.
Variable localize : string -> datetime -> Z.
Variable Preference_timezone : Exn + string.
Variable Preference_connection_test_interval : Exn + Q.
Variable hostname : string.

(** ** Scheduler *)

Lemma interval_jobs_app (t1 t2 : list (Job datetime)) :
  interval_jobs (t1 ++ t2) = interval_jobs t1 ++ interval_jobs t2.
Proof. apply filter_app. Qed.

(** What the loop over the plans keeps of the scheduler it starts from: the
    timezone, and the interval jobs of the table; and it logs nothing. *)
Lemma add_plan_jobs_keeps (plans : list ExchangePlan) on_success on_fail :
  forall s t s',
    add_plan_jobs fromtimestamp plans on_success on_fail s = (t, inr s') ->
    t = []
    /\ scheduler_timezone s' = scheduler_timezone s
    /\ interval_jobs (jobs s') = interval_jobs (jobs s).
Proof.
  induction plans as [| p plans IH]; intros s t s' Hrun; simpl in Hrun.
  - injection Hrun as <- <-. repeat split.
  - destruct (time (good p)) as [ts |]; simpl in Hrun; [| discriminate Hrun].
    destruct (fromtimestamp ts) as [e | d]; [discriminate Hrun |].
    destruct (add_plan_jobs fromtimestamp plans on_success on_fail
                (add_job s (DateJob d (p, on_success, on_fail))))
      as [t' [e | s'']] eqn:Hrest; [discriminate Hrun |].
    injection Hrun as <- <-.
    destruct (IH _ _ _ Hrest) as [-> [Htz Hjobs]].
    split; [reflexivity | split; [exact Htz |]].
    rewrite Hjobs. cbn [add_job jobs]. rewrite interval_jobs_app.
    apply app_nil_r.
Qed.

(** A release timestamp that [datetime.fromtimestamp] refuses stops the
    loop with the exception of the conversion, when the plans before it
    convert. *)
Lemma add_plan_jobs_unconvertible (before after : list ExchangePlan)
  (p : ExchangePlan) (ts : Z) (e : Exn) on_success on_fail :
  (forall q, In q before -> convertible fromtimestamp q) ->
  time (good p) = Some ts ->
  fromtimestamp ts = inl e ->
  forall s, add_plan_jobs fromtimestamp (before ++ p :: after)
              on_success on_fail s
            = ([], inl e).
Proof.
  induction before as [| q before IH]; intros Hconv Hts He s; simpl.
  - rewrite Hts. simpl. now rewrite He.
  - destruct (Hconv q (or_introl eq_refl)) as [ts' [d [Hts' Hd]]].
    rewrite Hts'. simpl. rewrite Hd.
    now rewrite (IH (fun r Hr => Hconv r (or_intror Hr)) Hts He).
Qed.

(** What a scheduler that [get_scheduler] returns holds: the timezone that
    [conf.preference.timezone or Preference.timezone] gave, and, when the
    connection test is enabled, one interval job with the value of
    [conf.preference.connection_test_interval or
    Preference.connection_test_interval]. *)
Lemma get_scheduler_returned (c : Config) on_success on_fail t scheduler :
  get_scheduler fromtimestamp Preference_timezone
    Preference_connection_test_interval c on_success on_fail
  = (t, inr scheduler) ->
  exists tz,
    @or_str Event (timezone (preference c)) Preference_timezone = ([], inr tz)
    /\ scheduler_timezone scheduler = Some tz
    /\ if enable_connection_test (preference c)
       then exists q,
              @or_num Event (connection_test_interval (preference c))
                Preference_connection_test_interval = ([], inr q)
              /\ interval_jobs (jobs scheduler) = [IntervalJob q]
       else interval_jobs (jobs scheduler) = [].
Proof.
  unfold get_scheduler. intros Hrun.
  assert (Hstr : forall x d, exists r, @or_str Event x d = ([], r)).
  { intros [s |] d; simpl; [destruct (s =? "")%string |]; eexists; reflexivity. }
  assert (Hnum : forall x d, exists r, @or_num Event x d = ([], r)).
  { intros [q |] d; simpl; [destruct (Qeq_bool q 0) |]; eexists; reflexivity. }
  destruct (Hstr (timezone (preference c)) Preference_timezone) as [[e | tz] Htz];
    rewrite Htz in Hrun; [discriminate Hrun |].
  exists tz. split; [exact Htz |].
  destruct (enable_connection_test (preference c)).
  - destruct (Hnum (connection_test_interval (preference c))
                   Preference_connection_test_interval) as [[e | q] Hq];
      rewrite Hq in Hrun; [discriminate Hrun |].
    simpl in Hrun.
    destruct (add_plan_jobs fromtimestamp (exchange_plans c) on_success on_fail _)
      as [t' [e | s']] eqn:Hloop; [discriminate Hrun |].
    injection Hrun as _ <-.
    destruct (add_plan_jobs_keeps _ _ _ _ _ _ Hloop) as [_ [Hzone Hjobs]].
    split; [exact Hzone |]. exists q. split; [exact Hq | exact Hjobs].
  - simpl in Hrun.
    destruct (add_plan_jobs fromtimestamp (exchange_plans c) on_success on_fail _)
      as [t' [e | s']] eqn:Hloop; [discriminate Hrun |].
    injection Hrun as _ <-.
    destruct (add_plan_jobs_keeps _ _ _ _ _ _ Hloop) as [_ [Hzone Hjobs]].
    split; [exact Hzone | exact Hjobs].
Qed.

(** X8: with the timezone and the probe settings configured, a plan without
    a release timestamp makes [get_scheduler] raise a type error when the
    plans before it convert, so no scheduler is returned, not even for
    those plans; the headless driver then ends with that error before any
    scheduler is started and before any job runs. *)
Theorem untimed_plan_stops_scheduler (c : Config) on_success on_fail
  (tz : string) (before after : list ExchangePlan) (p : ExchangePlan)
  (firings : list Firing) (interrupt : bool) :
  timezone_set c tz ->
  probe_set c ->
  exchange_plans c = before ++ p :: after ->
  (forall q, In q before -> convertible fromtimestamp q) ->
  time (good p) = None ->
  get_scheduler fromtimestamp Preference_timezone
    Preference_connection_test_interval c on_success on_fail
  = ([SchedulerCreated], inl TypeError)
  /\ exchange_mode_simple fromtimestamp Preference_timezone
       Preference_connection_test_interval hostname c firings interrupt
     = ([LoggerAdded; SchedulerCreated], inl TypeError).
Proof.
  intros Htz Hprobe Hplans Hconv Hnone.
  assert (Hget : forall s f,
             get_scheduler fromtimestamp Preference_timezone
               Preference_connection_test_interval c s f
             = ([SchedulerCreated], inl TypeError)).
  { intros s f. rewrite (get_scheduler_settings _ fromtimestamp _ _ c s f tz Htz Hprobe).
    rewrite Hplans.
    now rewrite (add_plan_jobs_missing_timestamp _ fromtimestamp before after p
                   s f Hconv Hnone). }
  split; [apply Hget |].
  unfold exchange_mode_simple. rewrite Hget.
  destruct (exchange_plans c) as [| p0 plans];
    [destruct before; discriminate Hplans | reflexivity].
Qed.

(** X9: a timezone that is configured and not empty is the timezone of
    every scheduler that [get_scheduler] returns. *)
Theorem scheduler_timezone_is_configured (c : Config) on_success on_fail
  (tz : string) t scheduler :
  timezone_set c tz ->
  get_scheduler fromtimestamp Preference_timezone
    Preference_connection_test_interval c on_success on_fail
  = (t, inr scheduler) ->
  scheduler_timezone scheduler = Some tz.
Proof.
  intros [Htz Hnonempty] Hrun.
  destruct (get_scheduler_returned c on_success on_fail t scheduler Hrun)
    as [tz' [Hor [Hzone _]]].
  unfold or_str in Hor. rewrite Htz in Hor.
  destruct (String.eqb_spec tz ""); [contradiction |].
  injection Hor as <-. exact Hzone.
Qed.

(** X10: the probe job of every scheduler that [get_scheduler] returns:
    none when the connection test is disabled, and when it is enabled with
    an interval that is configured and not zero, exactly one, with that
    interval. *)
Theorem probe_interval_is_configured (c : Config) on_success on_fail
  t scheduler :
  get_scheduler fromtimestamp Preference_timezone
    Preference_connection_test_interval c on_success on_fail
  = (t, inr scheduler) ->
  (enable_connection_test (preference c) = false ->
   interval_jobs (jobs scheduler) = [])
  /\ (forall q, enable_connection_test (preference c) = true ->
                connection_test_interval (preference c) = Some q ->
                ~ (q == 0)%Q ->
                interval_jobs (jobs scheduler) = [IntervalJob q]).
Proof.
  intros Hrun.
  destruct (get_scheduler_returned c on_success on_fail t scheduler Hrun)
    as [tz [_ [_ Hprobe]]].
  split.
  - intros Hoff. now rewrite Hoff in Hprobe.
  - intros q Hon Hq Hnonzero. rewrite Hon in Hprobe.
    destruct Hprobe as [q' [Hor Hjobs]].
    unfold or_num in Hor. rewrite Hq in Hor.
    destruct (Qeq_bool q 0) eqn:Hzero;
      [apply Qeq_bool_iff in Hzero; contradiction |].
    injection Hor as <-. exact Hjobs.
Qed.

(** X16: when the configured timezone is missing or empty, [get_scheduler]
    evaluates the class attribute [Preference.timezone]; an exception of
    that read ends [get_scheduler], before any job is registered, and the
    headless driver with at least one plan ends with it before the
    scheduler is started. *)
Theorem unset_timezone_reads_class_attribute (c : Config) on_success on_fail
  (e : Exn) (firings : list Firing) (interrupt : bool) :
  timezone (preference c) = None \/ timezone (preference c) = Some "" ->
  Preference_timezone = inl e ->
  get_scheduler fromtimestamp Preference_timezone
    Preference_connection_test_interval c on_success on_fail
  = ([SchedulerCreated], inl e)
  /\ (exchange_plans c <> [] ->
      exchange_mode_simple fromtimestamp Preference_timezone
        Preference_connection_test_interval hostname c firings interrupt
      = ([LoggerAdded; SchedulerCreated], inl e)).
Proof.
  intros Hunset He.
  assert (Hget : forall s f,
             get_scheduler fromtimestamp Preference_timezone
               Preference_connection_test_interval c s f
             = ([SchedulerCreated], inl e)).
  { intros s f. unfold get_scheduler, or_str.
    destruct Hunset as [-> | ->]; rewrite He; reflexivity. }
  split; [apply Hget |].
  intros Hplans. unfold exchange_mode_simple. rewrite Hget.
  destruct (exchange_plans c); [contradiction | reflexivity].
Qed.

(** X17: when the connection test is enabled and the configured interval is
    missing or zero, [get_scheduler] evaluates the class attribute
    [Preference.connection_test_interval]; an exception of that read ends
    [get_scheduler] before any job is registered. *)
Theorem unset_interval_reads_class_attribute (c : Config) on_success on_fail
  (tz : string) (e : Exn) :
  timezone_set c tz ->
  enable_connection_test (preference c) = true ->
  connection_test_interval (preference c) = None
  \/ (exists q, connection_test_interval (preference c) = Some q
                /\ (q == 0)%Q) ->
  Preference_connection_test_interval = inl e ->
  get_scheduler fromtimestamp Preference_timezone
    Preference_connection_test_interval c on_success on_fail
  = ([SchedulerCreated], inl e).
Proof.
  intros [Htz Hnonempty] Hon Hunset He.
  unfold get_scheduler, or_str, or_num. rewrite Htz, Hon.
  destruct (String.eqb_spec tz ""); [contradiction |].
  destruct Hunset as [-> | [q [-> Hzero]]].
  - rewrite He. reflexivity.
  - apply Qeq_bool_iff in Hzero. rewrite Hzero, He. reflexivity.
Qed.

(** X18: with the timezone and the probe settings configured, a release
    timestamp that [datetime.fromtimestamp] refuses makes [get_scheduler]
    raise the exception of the conversion when the plans before it
    convert: no scheduler is returned. *)
Theorem unconvertible_timestamp_stops_scheduler (c : Config)
  on_success on_fail (tz : string) (before after : list ExchangePlan)
  (p : ExchangePlan) (ts : Z) (e : Exn) :
  timezone_set c tz ->
  probe_set c ->
  exchange_plans c = before ++ p :: after ->
  (forall q, In q before -> convertible fromtimestamp q) ->
  time (good p) = Some ts ->
  fromtimestamp ts = inl e ->
  get_scheduler fromtimestamp Preference_timezone
    Preference_connection_test_interval c on_success on_fail
  = ([SchedulerCreated], inl e).
Proof.
  intros Htz Hprobe Hplans Hconv Hts He.
  rewrite (get_scheduler_settings _ fromtimestamp _ _ c on_success on_fail tz
             Htz Hprobe).
  rewrite Hplans.
  now rewrite (add_plan_jobs_unconvertible before after p ts e
                 on_success on_fail Hconv Hts He).
Qed.

(** The one-shot jobs of a scheduler that the loop over the plans returns:
    what the table held, and then one job per plan, in order. *)
Lemma add_plan_jobs_returned (plans : list ExchangePlan) on_success on_fail :
  forall s t s',
    add_plan_jobs fromtimestamp plans on_success on_fail s = (t, inr s') ->
    exists added,
      date_jobs (jobs s') = date_jobs (jobs s) ++ added
      /\ Forall2 (fun p j => exists ts d,
                    time (good p) = Some ts /\ fromtimestamp ts = inr d
                    /\ j = DateJob d (p, on_success, on_fail))
                 plans added.
Proof.
  induction plans as [| p plans IH]; intros s t s' Hrun; simpl in Hrun.
  - injection Hrun as <- <-. exists []. rewrite app_nil_r.
    split; [reflexivity | constructor].
  - destruct (time (good p)) as [ts |] eqn:Hts; simpl in Hrun;
      [| discriminate Hrun].
    destruct (fromtimestamp ts) as [e | d] eqn:Hd; [discriminate Hrun |].
    destruct (add_plan_jobs fromtimestamp plans on_success on_fail
                (add_job s (DateJob d (p, on_success, on_fail))))
      as [t' [e | s'']] eqn:Hrest; [discriminate Hrun |].
    injection Hrun as <- <-.
    destruct (IH _ _ _ Hrest) as [added [Hjobs Hall]].
    exists (DateJob d (p, on_success, on_fail) :: added). split.
    + rewrite Hjobs. cbn [add_job jobs]. rewrite date_jobs_app.
      rewrite <- app_assoc. reflexivity.
    + constructor; [now exists ts, d | exact Hall].
Qed.

(** X19: where the zone of the process and the timezone of the scheduler
    agree, that is where the scheduler reads every naive date that
    [datetime.fromtimestamp] gives back as the timestamp it came from,
    every one-shot job of a scheduler that [get_scheduler] returns fires
    at the release timestamp of its plan. *)
Theorem jobs_fire_at_release_when_zones_agree (c : Config) on_success on_fail
  (tz : string) t scheduler :
  timezone_set c tz ->
  (forall ts d, fromtimestamp ts = inr d -> localize tz d = ts) ->
  get_scheduler fromtimestamp Preference_timezone
    Preference_connection_test_interval c on_success on_fail
  = (t, inr scheduler) ->
  Forall2 (fun p j => trigger_time localize scheduler j = time (good p)
                      /\ exists d, j = DateJob d (p, on_success, on_fail))
          (exchange_plans c) (date_jobs (jobs scheduler)).
Proof.
  intros [Htz Hnonempty] Hagree Hrun.
  destruct (get_scheduler_returned c on_success on_fail t scheduler Hrun)
    as [tz' [Hor [Hzone _]]].
  unfold or_str in Hor. rewrite Htz in Hor.
  destruct (String.eqb_spec tz ""); [contradiction |].
  injection Hor as <-.
  assert (Hdates : exists added,
             date_jobs (jobs scheduler) = added
             /\ Forall2 (fun p j => exists ts d,
                           time (good p) = Some ts /\ fromtimestamp ts = inr d
                           /\ j = DateJob d (p, on_success, on_fail))
                        (exchange_plans c) added).
  { unfold get_scheduler in Hrun.
    destruct (@or_str Event (timezone (preference c)) Preference_timezone)
      as [t1 [e | tz1]]; [discriminate Hrun |].
    destruct (enable_connection_test (preference c)).
    - destruct (@or_num Event (connection_test_interval (preference c))
                  Preference_connection_test_interval) as [t2 [e | q]];
        [discriminate Hrun |].
      simpl in Hrun.
      destruct (add_plan_jobs fromtimestamp (exchange_plans c) on_success
                  on_fail _) as [t' [e | s']] eqn:Hloop; [discriminate Hrun |].
      injection Hrun as _ <-.
      destruct (add_plan_jobs_returned _ _ _ _ _ _ Hloop) as [added [Hjobs Hall]].
      exists added. split; [exact Hjobs | exact Hall].
    - simpl in Hrun.
      destruct (add_plan_jobs fromtimestamp (exchange_plans c) on_success
                  on_fail _) as [t' [e | s']] eqn:Hloop; [discriminate Hrun |].
      injection Hrun as _ <-.
      destruct (add_plan_jobs_returned _ _ _ _ _ _ Hloop) as [added [Hjobs Hall]].
      exists added. split; [exact Hjobs | exact Hall]. }
  destruct Hdates as [added [-> Hall]].
  apply Forall2_impl with (2 := Hall).
  intros p j [ts [d [Hts [Hd ->]]]]. split; [| now exists d].
  unfold trigger_time. rewrite Hzone, Hts. f_equal. now apply Hagree.
Qed.

(** ** Headless driver *)


End MoreSchedulingProperties.

(** ** Interactive view *)

(** X12: a press of any button other than the two of the view changes
    nothing and posts nothing. *)
Theorem other_button_is_ignored (v : ExchangeModeView) (e : Pressed) :
  id (button e) <> "button-exchange_mode-enter" ->
  id (button e) <> "button-exchange_mode-exit" ->
  _on_button_pressed v e = (v, []).
Proof.
  intros Henter Hexit. unfold _on_button_pressed.
  destruct (String.eqb_spec (id (button e)) "button-exchange_mode-enter");
    [contradiction |].
  destruct (String.eqb_spec (id (button e)) "button-exchange_mode-exit");
    [contradiction | reflexivity].
Qed.

(** X13: the handler does not look at the state of the view: handling the
    same press a second time leaves the view as the first time left it and
    posts the same message once more. *)
Theorem repeated_press_posts_again (v : ExchangeModeView) (e : Pressed) :
  _on_button_pressed (fst (_on_button_pressed v e)) e = _on_button_pressed v e.
Proof.
  unfold _on_button_pressed.
  destruct (id (button e) =? "button-exchange_mode-enter")%string eqn:Henter.
  - cbn [fst snd]. reflexivity.
  - destruct (id (button e) =? "button-exchange_mode-exit")%string eqn:Hexit.
    + cbn [fst snd]. reflexivity.
    + cbn [fst snd]. reflexivity.
Qed.

(** One run of the handler: nothing happens, or the view is armed and
    EnterExchangeMode posted, or disarmed and ExitExchangeMode posted; the
    buttons keep their ids throughout. *)
Lemma on_button_pressed_cases (v : ExchangeModeView) (e : Pressed) :
  id (button_enter (fst (_on_button_pressed v e))) = id (button_enter v)
  /\ id (button_exit (fst (_on_button_pressed v e))) = id (button_exit v)
  /\ (_on_button_pressed v e = (v, [])
      \/ (snd (_on_button_pressed v e) = [EnterExchangeMode]
          /\ armed_look (fst (_on_button_pressed v e)))
      \/ (snd (_on_button_pressed v e) = [ExitExchangeMode]
          /\ disarmed_look (fst (_on_button_pressed v e)))).
Proof.
  unfold _on_button_pressed, armed_look, disarmed_look.
  destruct (id (button e) =? "button-exchange_mode-enter")%string.
  - cbn. repeat split. right. left. repeat split.
  - destruct (id (button e) =? "button-exchange_mode-exit")%string.
    + cbn. repeat split. right. right. repeat split.
    + cbn. repeat split. left. reflexivity.
Qed.

Lemma last_app_nonempty {A} (l1 l2 : list A) (d : A) :
  l2 <> [] -> last (l1 ++ l2) d = last l2 d.
Proof.
  intros Hl2. induction l1 as [| x l1 IH]; simpl; [reflexivity |].
  destruct (l1 ++ l2) eqn:Happ; [| exact IH].
  apply app_eq_nil in Happ. destruct Happ as [_ ->]. contradiction.
Qed.

Lemma handle_events_invariant (events : list Pressed) :
  forall v,
    id (button_enter (fst (handle_events v events))) = id (button_enter v)
    /\ id (button_exit (fst (handle_events v events))) = id (button_exit v)
    /\ (snd (handle_events v events) = [] -> fst (handle_events v events) = v)
    /\ (snd (handle_events v events) <> [] ->
        forall d,
          match last (snd (handle_events v events)) d with
          | EnterExchangeMode => armed_look (fst (handle_events v events))
          | ExitExchangeMode => disarmed_look (fst (handle_events v events))
          end).
Proof.
  induction events as [| e rest IH]; intros v; simpl.
  - repeat split; congruence.
  - destruct (on_button_pressed_cases v e) as [Hid1 [Hid2 Hcases]].
    destruct (_on_button_pressed v e) as [v1 posted1] eqn:Hstep.
    cbn [fst snd] in *.
    destruct (IH v1) as [Hid1' [Hid2' [Hnil Hlast]]].
    destruct (handle_events v1 rest) as [v2 posted2] eqn:Hrest.
    cbn [fst snd] in *.
    split; [congruence | split; [congruence | split]].
    + intros Hposted. apply app_eq_nil in Hposted.
      destruct Hposted as [-> ->].
      rewrite (Hnil eq_refl).
      destruct Hcases as [H | [[H _] | [H _]]]; congruence.
    + intros Hposted d.
      destruct posted2 as [| m posted2].
      * rewrite app_nil_r in *. rewrite (Hnil eq_refl).
        destruct Hcases as [H | [[-> Hlook] | [-> Hlook]]]; [| exact Hlook ..].
        injection H as _ ->. contradiction.
      * rewrite last_app_nonempty by discriminate.
        apply Hlast. discriminate.
Qed.

(** X14: after any queue of button presses from the initial view, the view
    shows one of its two looks, and the last message posted tells which:
    armed (enter hidden, exit displayed, the exit text) after
    EnterExchangeMode, disarmed (enter displayed, exit hidden, the enter
    text) after ExitExchangeMode or when nothing was posted. *)
Theorem last_message_tells_look (events : list Pressed) :
  match last (snd (handle_events initial_view events)) ExitExchangeMode with
  | EnterExchangeMode => armed_look (fst (handle_events initial_view events))
  | ExitExchangeMode => disarmed_look (fst (handle_events initial_view events))
  end.
Proof.
  destruct (handle_events_invariant events initial_view)
    as [_ [_ [Hnil Hlast]]].
  destruct (snd (handle_events initial_view events)) as [| m posted] eqn:Hposted.
  - rewrite (Hnil eq_refl). simpl. repeat split.
  - apply Hlast. discriminate.
Qed.

(** X15: after any queue of button presses from the initial view, of the
    widgets that [compose] yields exactly one button is on the screen: the
    exit button if the last message posted was EnterExchangeMode, else the
    enter button. *)
Theorem one_button_displayed (events : list Pressed) :
  displayed_buttons (compose (fst (handle_events initial_view events)))
  = match last (snd (handle_events initial_view events)) ExitExchangeMode with
    | EnterExchangeMode => ["button-exchange_mode-exit"]
    | ExitExchangeMode => ["button-exchange_mode-enter"]
    end.
Proof.
  destruct (handle_events_invariant events initial_view)
    as [Hid1 [Hid2 [Hnil Hlast]]].
  assert (Hlook :
            match last (snd (handle_events initial_view events))
                       ExitExchangeMode with
            | EnterExchangeMode =>
                armed_look (fst (handle_events initial_view events))
            | ExitExchangeMode =>
                disarmed_look (fst (handle_events initial_view events))
            end).
  { destruct (snd (handle_events initial_view events)) as [| m posted].
    - rewrite (Hnil eq_refl). simpl. repeat split.
    - apply Hlast. discriminate. }
  change (id (button_enter initial_view))
    with "button-exchange_mode-enter" in Hid1.
  change (id (button_exit initial_view))
    with "button-exchange_mode-exit" in Hid2.
  unfold compose, displayed_buttons.
  destruct (last (snd (handle_events initial_view events)) ExitExchangeMode);
    destruct Hlook as [Henter [Hexit _]]; rewrite Henter, Hexit, ?Hid1, ?Hid2;
    reflexivity.
Qed.

(** * Further instances on the sample data *)




Lemma jitter_reversed_window_witness :
  exchange_latency (preference (conf reversed_world)) = (2, 1)%float
  /\ (1 <=? 2)%float = true
  /\ is_finite (1 - 2)%float = true
  /\ unit_interval (random reversed_world)
  /\ exists d, sleeps (trace (exchange_begin reversed_world sample_plan
                                Simple.on_success Simple.on_fail)) = [d]
               /\ (1 <=? d)%float = true /\ (d <=? 2)%float = true.
Proof.
  assert (Hu : unit_interval (random reversed_world))
    by (split; reflexivity).
  split; [reflexivity | split; [reflexivity | split; [reflexivity |]]].
  split; [exact Hu |].
  exact (jitter_reversed_window reversed_world sample_plan
           Simple.on_success Simple.on_fail 2%float 1%float
           eq_refl eq_refl eq_refl Hu).
Defined.

Lemma untimed_plan_stops_scheduler_witness :
  timezone_set untimed_conf "Asia/Shanghai"
  /\ probe_set untimed_conf
  /\ exchange_plans untimed_conf = [sample_plan] ++ untimed_plan :: []
  /\ (forall q, In q [sample_plan] -> convertible sample_fromtimestamp q)
  /\ time (good untimed_plan) = None
  /\ get_scheduler sample_fromtimestamp sample_timezone sample_interval
       untimed_conf Simple.on_success Simple.on_fail
     = ([SchedulerCreated], inl TypeError)
  /\ exchange_mode_simple sample_fromtimestamp sample_timezone sample_interval
       sample_hostname untimed_conf sample_firings true
     = ([LoggerAdded; SchedulerCreated], inl TypeError).
Proof.
  assert (Htz : timezone_set untimed_conf "Asia/Shanghai")
    by (split; [reflexivity | discriminate]).
  assert (Hprobe : probe_set untimed_conf)
    by (right; exists 30%Q; split; [reflexivity | discriminate]).
  assert (Hconv : forall q, In q [sample_plan] ->
                            convertible sample_fromtimestamp q).
  { intros q [<- | []]. exists 4102444800%Z, (4102444800 + 28800)%Z.
    split; reflexivity. }
  split; [exact Htz | split; [exact Hprobe | split; [reflexivity |]]].
  split; [exact Hconv | split; [reflexivity |]].
  exact (untimed_plan_stops_scheduler Z sample_fromtimestamp sample_timezone
           sample_interval sample_hostname untimed_conf
           Simple.on_success Simple.on_fail "Asia/Shanghai"
           [sample_plan] [] untimed_plan sample_firings true
           Htz Hprobe eq_refl Hconv eq_refl).
Defined.

Lemma scheduler_timezone_is_configured_witness :
  timezone_set sample_conf "Asia/Shanghai"
  /\ get_scheduler sample_fromtimestamp sample_timezone sample_interval
       sample_conf Simple.on_success Simple.on_fail
     = ([SchedulerCreated], inr sample_scheduler)
  /\ scheduler_timezone sample_scheduler = Some "Asia/Shanghai".
Proof.
  assert (Htz : timezone_set sample_conf "Asia/Shanghai")
    by (split; [reflexivity | discriminate]).
  split; [exact Htz | split; [reflexivity |]].
  exact (scheduler_timezone_is_configured Z sample_fromtimestamp
           sample_timezone sample_interval sample_conf Simple.on_success
           Simple.on_fail "Asia/Shanghai" [SchedulerCreated] sample_scheduler
           Htz eq_refl).
Defined.

Lemma probe_interval_is_configured_witness :
  get_scheduler sample_fromtimestamp sample_timezone sample_interval
    sample_conf Simple.on_success Simple.on_fail
  = ([SchedulerCreated], inr sample_scheduler)
  /\ enable_connection_test (preference sample_conf) = true
  /\ connection_test_interval (preference sample_conf) = Some 30%Q
  /\ interval_jobs (jobs sample_scheduler) = [IntervalJob 30%Q].
Proof.
  split; [reflexivity | split; [reflexivity | split; [reflexivity |]]].
  apply (proj2 (probe_interval_is_configured Z sample_fromtimestamp
                  sample_timezone sample_interval sample_conf
                  Simple.on_success Simple.on_fail [SchedulerCreated]
                  sample_scheduler eq_refl) 30%Q eq_refl eq_refl).
  discriminate.
Defined.

Lemma unset_timezone_reads_class_attribute_witness :
  timezone (preference empty_timezone_conf) = Some ""
  /\ sample_timezone = inl AttributeError
  /\ get_scheduler sample_fromtimestamp sample_timezone sample_interval
       empty_timezone_conf Simple.on_success Simple.on_fail
     = ([SchedulerCreated], inl AttributeError)
  /\ exchange_mode_simple sample_fromtimestamp sample_timezone sample_interval
       sample_hostname empty_timezone_conf sample_firings true
     = ([LoggerAdded; SchedulerCreated], inl AttributeError).
Proof.
  split; [reflexivity | split; [reflexivity |]].
  destruct (unset_timezone_reads_class_attribute Z sample_fromtimestamp
              sample_timezone sample_interval sample_hostname
              empty_timezone_conf Simple.on_success Simple.on_fail
              AttributeError sample_firings true (or_intror eq_refl) eq_refl)
    as [Hget Hrun].
  split; [exact Hget | apply Hrun; discriminate].
Defined.

Lemma unset_interval_reads_class_attribute_witness :
  timezone_set zero_interval_conf "Asia/Shanghai"
  /\ enable_connection_test (preference zero_interval_conf) = true
  /\ connection_test_interval (preference zero_interval_conf) = Some 0%Q
  /\ sample_interval = inl AttributeError
  /\ get_scheduler sample_fromtimestamp sample_timezone sample_interval
       zero_interval_conf Simple.on_success Simple.on_fail
     = ([SchedulerCreated], inl AttributeError).
Proof.
  assert (Htz : timezone_set zero_interval_conf "Asia/Shanghai")
    by (split; [reflexivity | discriminate]).
  split; [exact Htz | split; [reflexivity | split; [reflexivity |]]].
  split; [reflexivity |].
  apply (unset_interval_reads_class_attribute Z sample_fromtimestamp
           sample_timezone sample_interval zero_interval_conf
           Simple.on_success Simple.on_fail "Asia/Shanghai" AttributeError
           Htz eq_refl).
  - right. exists 0%Q. split; reflexivity.
  - reflexivity.
Defined.

Lemma unconvertible_timestamp_stops_scheduler_witness :
  timezone_set far_conf "Asia/Shanghai"
  /\ probe_set far_conf
  /\ exchange_plans far_conf = [sample_plan] ++ far_plan :: []
  /\ (forall q, In q [sample_plan] -> convertible bounded_fromtimestamp q)
  /\ time (good far_plan) = Some 1000000000000%Z
  /\ bounded_fromtimestamp 1000000000000 = inl (OtherError "ValueError")
  /\ get_scheduler bounded_fromtimestamp sample_timezone sample_interval
       far_conf Simple.on_success Simple.on_fail
     = ([SchedulerCreated], inl (OtherError "ValueError")).
Proof.
  assert (Htz : timezone_set far_conf "Asia/Shanghai")
    by (split; [reflexivity | discriminate]).
  assert (Hprobe : probe_set far_conf)
    by (right; exists 30%Q; split; [reflexivity | discriminate]).
  assert (Hconv : forall q, In q [sample_plan] ->
                            convertible bounded_fromtimestamp q).
  { intros q [<- | []]. exists 4102444800%Z, 4102444800%Z.
    split; reflexivity. }
  split; [exact Htz | split; [exact Hprobe | split; [reflexivity |]]].
  split; [exact Hconv | split; [reflexivity | split; [reflexivity |]]].
  exact (unconvertible_timestamp_stops_scheduler Z bounded_fromtimestamp
           sample_timezone sample_interval far_conf Simple.on_success
           Simple.on_fail "Asia/Shanghai" [sample_plan] [] far_plan
           1000000000000%Z (OtherError "ValueError")
           Htz Hprobe eq_refl Hconv eq_refl eq_refl).
Defined.

Lemma jobs_fire_at_release_when_zones_agree_witness :
  timezone_set sample_conf "Asia/Shanghai"
  /\ (forall ts d, sample_fromtimestamp ts = inr d ->
                   sample_localize "Asia/Shanghai" d = ts)
  /\ get_scheduler sample_fromtimestamp sample_timezone sample_interval
       sample_conf Simple.on_success Simple.on_fail
     = ([SchedulerCreated], inr sample_scheduler)
  /\ Forall2 (fun p j =>
                trigger_time sample_localize sample_scheduler j = time (good p)
                /\ exists d, j = DateJob d (p, Simple.on_success, Simple.on_fail))
             (exchange_plans sample_conf) (date_jobs (jobs sample_scheduler)).
Proof.
  assert (Htz : timezone_set sample_conf "Asia/Shanghai")
    by (split; [reflexivity | discriminate]).
  assert (Hagree : forall ts d, sample_fromtimestamp ts = inr d ->
                                sample_localize "Asia/Shanghai" d = ts).
  { intros ts d H. injection H as <-. unfold sample_localize. simpl. lia. }
  split; [exact Htz | split; [exact Hagree | split; [reflexivity |]]].
  exact (jobs_fire_at_release_when_zones_agree Z sample_fromtimestamp
           sample_localize sample_timezone sample_interval sample_conf
           Simple.on_success Simple.on_fail "Asia/Shanghai"
           [SchedulerCreated] sample_scheduler Htz Hagree eq_refl).
Defined.


Lemma other_button_is_ignored_witness :
  id other_button <> "button-exchange_mode-enter"
  /\ id other_button <> "button-exchange_mode-exit"
  /\ _on_button_pressed initial_view {| button := other_button |}
     = (initial_view, []).
Proof.
  assert (Henter : id other_button <> "button-exchange_mode-enter")
    by discriminate.
  assert (Hexit : id other_button <> "button-exchange_mode-exit")
    by discriminate.
  split; [exact Henter | split; [exact Hexit |]].
  exact (other_button_is_ignored initial_view {| button := other_button |}
           Henter Hexit).
Defined.
